(** * SI_Symbol: the placed instance of a library symbol on a schematic sheet

    A shallow embedding of
    [libs/librepcbproject/schematics/items/si_symbol.cpp] and the
    properties of its constructors, its validity check, its XML
    serialisation and its attribute lookup.

    The class talks to many collaborators whose sources live in other
    files (Uuid, Length, Angle, Point, XmlDomElement, Circuit,
    ComponentInstance, ProjectLibrary, library::Symbol, SGI_Symbol,
    SI_SymbolPin, GraphicsScene).  Their types and operations are taken
    as parameters, bundled in the classes [Foundation], [Handles] and
    [Collaborators]; the objects this file only reads are records of the
    observations it makes of them.

    Not modelled: the destructor, [getGrabAreaScenePx], [setSelected]
    and the slot [schematicOrComponentAttributesChanged], which only
    forward to the graphics item and the pins. *)

From Stdlib Require Import ZArith DecimalString DecimalZ DecimalPos.
From stdpp Require Import gmap strings list fin_maps.

Set Default Proof Using "Type".
Set Warnings "-clear-no-such-hyp".
Local Open Scope string_scope.

(** ** Value types of librepcbcommon *)

(** The value types the symbol stores, with what this file needs of
    them: default constructors, [Uuid::isNull], and the exceptions
    collaborators may raise. *)
Class Foundation := {
  Uuid : Type;
  Uuid_eq_dec :: EqDecision Uuid;
  Uuid_countable :: Countable Uuid;
  (** [Uuid()], the value of a member before it is assigned *)
  Uuid_default : Uuid;
  (** [Uuid::isNull()] *)
  isNull : Uuid -> bool;
  Length : Type;
  Length_default : Length;
  Angle : Type;
  Angle_default : Angle;
  (** exceptions thrown by code outside this file *)
  ForeignError : Type;
}.

(** [Point]: the source reads and writes the two coordinates. *)
Record Point `{Foundation} := mkPoint { getX : Length; getY : Length }.

Definition setX `{Foundation} (x : Length) (p : Point) : Point :=
  {| getX := x; getY := getY p |}.
Definition setY `{Foundation} (y : Length) (p : Point) : Point :=
  {| getX := getX p; getY := y |}.
Definition Point_default `{Foundation} : Point :=
  {| getX := Length_default; getY := Length_default |}.

(** ** Exceptions

    The six [RuntimeError]s of [si_symbol.cpp] are told apart by their
    message and carry the value the source formats into it. *)
Inductive Exception `{Foundation} :=
  (** "No component with the UUID %1 found in the circuit!" *)
  | NoComponentInCircuit (gcUuid : Uuid)
  (** "The symbol variant item UUID %1 is invalid." *)
  | InvalidSymbVarItem (symbVarItemUuid : Uuid)
  (** "No symbol with the UUID %1 found in the project's library." *)
  | NoSymbolInLibrary (symbolUuid : Uuid)
  (** "The symbol pin UUID %1 is defined multiple times." *)
  | PinDefinedMultipleTimes (pinUuid : Uuid)
  (** "Symbol pin UUID %1 not found in pin-signal-map." *)
  | PinNotInSignalMap (pinUuid : Uuid)
  (** "The pin count of the symbol instance %1 does not match with the
      pin-signal-map", debug message "%1!=%2" *)
  | PinCountMismatch (pinCount mapCount : nat)
  (** [LogicError(__FILE__, __LINE__)] *)
  | LogicError
  (** an attribute or child element is missing or does not parse *)
  | FileParseError (what : string)
  (** thrown by a collaborator *)
  | ForeignException (e : ForeignError)
  (** not an exception of the program: a null pointer was dereferenced,
      which has no defined behaviour *)
  | NullDereference.

(** Fallible results: [inl e] is a thrown exception. *)
Definition Exc `{Foundation} (A : Type) : Type := Exception + A.

Definition is_thrown `{Foundation} {A} (r : Exc A) : Prop :=
  match r with inl _ => True | inr _ => False end.

(** ** XML DOM elements *)

(** [getAttribute<T>] and [setAttribute<T>] convert through text; the
    conversions of each type are those of its own class. *)
Class XmlAttribute (T : Type) := {
  attr_write : T -> string;
  attr_read : string -> option T;
}.

(** Modelled from the spec: XmlDomElement (fileio/xmldomelement.h is not
    part of the sources).  An element has a name, named attributes and
    child elements; setting an attribute that exists overwrites it. *)
#[warnings="-register-all"]
Inductive XmlDomElement :=
  XmlElem (name : string) (attributes : list (string * string))
          (children : list XmlDomElement).

Definition xml_name (e : XmlDomElement) : string :=
  match e with XmlElem n _ _ => n end.
Definition xml_attributes (e : XmlDomElement) : list (string * string) :=
  match e with XmlElem _ a _ => a end.
Definition xml_children (e : XmlDomElement) : list XmlDomElement :=
  match e with XmlElem _ _ c => c end.

(** [new XmlDomElement(name)] *)
Definition XmlDomElement_new (name : string) : XmlDomElement :=
  XmlElem name [] [].

Fixpoint attr_lookup (name : string) (attrs : list (string * string))
  : option string :=
  match attrs with
  | [] => None
  | (k, v) :: rest => if decide (k = name) then Some v else attr_lookup name rest
  end.

Fixpoint attr_set (name value : string) (attrs : list (string * string))
  : list (string * string) :=
  match attrs with
  | [] => [(name, value)]
  | (k, v) :: rest =>
      if decide (k = name) then (k, value) :: rest
      else (k, v) :: attr_set name value rest
  end.

(** [setAttribute(name, value)] *)
Definition setAttribute {T} `{XmlAttribute T} (name : string) (value : T)
    (e : XmlDomElement) : XmlDomElement :=
  XmlElem (xml_name e) (attr_set name (attr_write value) (xml_attributes e))
          (xml_children e).

(** [appendChild]: the source fills the child through the returned
    pointer; here the filled child is appended. *)
Definition appendChild (child : XmlDomElement) (e : XmlDomElement)
  : XmlDomElement :=
  XmlElem (xml_name e) (xml_attributes e) (xml_children e ++ [child]).

(** [getAttribute<T>(name)], throwing when the attribute is missing or
    its text is not a [T] *)
Definition getAttribute `{Foundation} {T} `{XmlAttribute T}
    (e : XmlDomElement) (name : string) : Exc T :=
  match attr_lookup name (xml_attributes e) with
  | None => inl (FileParseError name)
  | Some text =>
      match attr_read text with
      | None => inl (FileParseError name)
      | Some v => inr v
      end
  end.

(** [getFirstChild(name, true)]: the first child of that name, throwing
    when there is none *)
Definition getFirstChild `{Foundation} (e : XmlDomElement) (name : string)
  : Exc XmlDomElement :=
  match List.find (fun c => bool_decide (xml_name c = name)) (xml_children e) with
  | None => inl (FileParseError name)
  | Some c => inr c
  end.

(** ** The objects the symbol refers to

    Each collaborator is a record of what this file reads from it. *)

(** [library::SymbolPin] *)
Record LibSymbolPin `{Foundation} := { libpin_getUuid : Uuid }.

(** [library::Symbol]; [getPins()] is the sequence the [foreach] of
    [init] walks through. *)
Record LibSymbol `{Foundation} := { sym_getPins : list LibSymbolPin }.

(** [library::ComponentSymbolVariantItem]; the pin-signal map is a Qt
    associative container from pin identifiers to signal identifiers, of
    which the source uses [contains] and [count]. *)
Record ComponentSymbolVariantItem `{Foundation} := {
  item_getUuid : Uuid;
  item_getSymbolUuid : Uuid;
  item_getSuffix : string;
  item_getPinSignalMap : gmap Uuid Uuid;
}.

(** An attribute lookup of a parent: namespace, key, passToParents and
    the current content of the output parameter, to the returned flag
    and the new content of the output parameter. *)
Definition AttributeProvider : Type :=
  string -> string -> bool -> string -> bool * string.

(** [ComponentInstance]; [cmp_getItemByUuid] is
    [getSymbolVariant().getItemByUuid]. *)
Record ComponentInstance `{Foundation} := {
  cmp_getUuid : Uuid;
  cmp_getName : string;
  cmp_getItemByUuid : Uuid -> option ComponentSymbolVariantItem;
  cmp_getAttributeValue : AttributeProvider;
}.

(** [Schematic], with the project it belongs to: the circuit and the
    project library are reached through it. *)
Record Schematic `{Foundation} := {
  (** [getProject().getCircuit().getComponentInstanceByUuid] *)
  getComponentInstanceByUuid : Uuid -> option ComponentInstance;
  (** [getProject().getLibrary().getSymbol] *)
  getSymbol : Uuid -> option LibSymbol;
  sch_getAttributeValue : AttributeProvider;
}.

(** Objects owned or used through a pointer whose state lives outside
    the symbol: they are handles, and their state is part of [World]. *)
Class Handles := {
  (** the rest of the program: scene, circuit registrations, pin and
      graphics item objects, the random generator *)
  World : Type;
  SGI_Symbol : Type;
  SI_SymbolPin : Type;
  GraphicsScene : Type;
}.

(** ** The class *)

Record SI_Symbol `{Foundation} `{Handles} := mkSI_Symbol {
  mSchematic : Schematic;
  mUuid : Uuid;
  mComponentInstance : option ComponentInstance;
  mSymbVarItem : option ComponentSymbolVariantItem;
  mSymbol : option LibSymbol;
  mPins : gmap Uuid SI_SymbolPin;
  mGraphicsItem : option SGI_Symbol;
  mPosition : Point;
  mRotation : Angle;
}.

Section Setters.
Context `{Foundation} `{Handles}.

Definition set_mUuid (u : Uuid) (s : SI_Symbol) : SI_Symbol :=
  mkSI_Symbol _ _ (mSchematic s) u (mComponentInstance s) (mSymbVarItem s)
    (mSymbol s) (mPins s) (mGraphicsItem s) (mPosition s) (mRotation s).
Definition set_mComponentInstance (c : option ComponentInstance)
    (s : SI_Symbol) : SI_Symbol :=
  mkSI_Symbol _ _ (mSchematic s) (mUuid s) c (mSymbVarItem s)
    (mSymbol s) (mPins s) (mGraphicsItem s) (mPosition s) (mRotation s).
Definition set_mSymbVarItem (i : option ComponentSymbolVariantItem)
    (s : SI_Symbol) : SI_Symbol :=
  mkSI_Symbol _ _ (mSchematic s) (mUuid s) (mComponentInstance s) i
    (mSymbol s) (mPins s) (mGraphicsItem s) (mPosition s) (mRotation s).
Definition set_mSymbol (y : option LibSymbol) (s : SI_Symbol) : SI_Symbol :=
  mkSI_Symbol _ _ (mSchematic s) (mUuid s) (mComponentInstance s)
    (mSymbVarItem s) y (mPins s) (mGraphicsItem s) (mPosition s)
    (mRotation s).
Definition set_mPins (m : gmap Uuid SI_SymbolPin) (s : SI_Symbol)
  : SI_Symbol :=
  mkSI_Symbol _ _ (mSchematic s) (mUuid s) (mComponentInstance s)
    (mSymbVarItem s) (mSymbol s) m (mGraphicsItem s) (mPosition s)
    (mRotation s).
Definition set_mGraphicsItem (g : option SGI_Symbol) (s : SI_Symbol)
  : SI_Symbol :=
  mkSI_Symbol _ _ (mSchematic s) (mUuid s) (mComponentInstance s)
    (mSymbVarItem s) (mSymbol s) (mPins s) g (mPosition s) (mRotation s).
Definition set_mPosition (p : Point) (s : SI_Symbol) : SI_Symbol :=
  mkSI_Symbol _ _ (mSchematic s) (mUuid s) (mComponentInstance s)
    (mSymbVarItem s) (mSymbol s) (mPins s) (mGraphicsItem s) p
    (mRotation s).
Definition set_mRotation (a : Angle) (s : SI_Symbol) : SI_Symbol :=
  mkSI_Symbol _ _ (mSchematic s) (mUuid s) (mComponentInstance s)
    (mSymbVarItem s) (mSymbol s) (mPins s) (mGraphicsItem s)
    (mPosition s) a.
End Setters.

(** ** Methods as state and exception passing

    A method runs on [*this] and the rest of the program, and either
    returns or throws; what it did before throwing stays done. *)

Definition Method `{Foundation} `{Handles} (A : Type) : Type :=
  SI_Symbol * World -> (SI_Symbol * World) * Exc A.

Section MethodMonad.
Context `{Foundation} `{Handles}.

Definition ret {A} (a : A) : Method A := fun st => (st, inr a).

Definition bind {A B} (m : Method A) (k : A -> Method B) : Method B :=
  fun st =>
    match m st with
    | (st', inl e) => (st', inl e)
    | (st', inr a) => k a st'
    end.

Definition throw {A} (e : Exception) : Method A := fun st => (st, inl e).

(** read [*this] *)
Definition this : Method SI_Symbol := fun st => (st, inr (fst st)).

(** assign to members *)
Definition assign (f : SI_Symbol -> SI_Symbol) : Method unit :=
  fun st => ((f (fst st), snd st), inr tt).

(** a call that cannot throw *)
Definition call (f : World -> World) : Method unit :=
  fun st => ((fst st, f (snd st)), inr tt).

(** a call that returns a value and cannot throw *)
Definition call_ret {A} (f : World -> World * A) : Method A :=
  fun st => let (w, a) := f (snd st) in ((fst st, w), inr a).

(** a call that may throw *)
Definition call_exc {A} (f : World -> World * Exc A) : Method A :=
  fun st => let (w, r) := f (snd st) in ((fst st, w), r).

(** a fallible computation that touches no state *)
Definition eval {A} (r : Exc A) : Method A := fun st => (st, r).

(** [foreach (x, l) body] *)
Fixpoint foreach {A} (l : list A) (body : A -> Method unit) : Method unit :=
  match l with
  | [] => ret tt
  | x :: rest => bind (body x) (fun _ => foreach rest body)
  end.
End MethodMonad.

Declare Scope method_scope.
Delimit Scope method_scope with method.
Notation "x <- c1 ;; c2" := (bind c1 (fun x => c2))
  (at level 100, c1 at next level, right associativity) : method_scope.
Notation "c1 ;;; c2" := (bind c1 (fun _ => c2))
  (at level 100, right associativity) : method_scope.

(** ** Operations of the collaborators *)

Class Collaborators `{Foundation} `{Handles} := {
  uuid_xml :: XmlAttribute Uuid;
  length_xml :: XmlAttribute Length;
  angle_xml :: XmlAttribute Angle;
  (** [Uuid::createRandom()] *)
  createRandom : World -> World * Uuid;
  (** [Point::operator+] *)
  point_plus : Point -> Point -> Point;
  (** [Point::rotated(angle, center)] *)
  rotated : Point -> Angle -> Point -> Point;
  (** [new SGI_Symbol] on [*this] *)
  SGI_Symbol_new : SI_Symbol -> World -> World * SGI_Symbol;
  (** [setPos(p.toPxQPointF())] *)
  sgi_setPos : SGI_Symbol -> Point -> World -> World;
  (** [setRotation(-a.toDeg())] *)
  sgi_setRotation : SGI_Symbol -> Angle -> World -> World;
  sgi_updateCacheAndRepaint : SGI_Symbol -> World -> World;
  (** [new SI_SymbolPin] on [*this] and the pin identifier *)
  SI_SymbolPin_new : SI_Symbol -> Uuid -> World -> World * Exc SI_SymbolPin;
  (** [pin->updatePosition()], which reads the symbol the pin belongs to *)
  pin_updatePosition : SI_SymbolPin -> SI_Symbol -> World -> World;
  pin_addToSchematic : SI_SymbolPin -> GraphicsScene -> World -> World * Exc unit;
  pin_removeFromSchematic :
    SI_SymbolPin -> GraphicsScene -> World -> World * Exc unit;
  (** [ComponentInstance::registerSymbol] on [*this] *)
  registerSymbol : ComponentInstance -> SI_Symbol -> World -> World * Exc unit;
  unregisterSymbol : ComponentInstance -> SI_Symbol -> World -> World * Exc unit;
  (** [GraphicsScene::addItem], [removeItem] *)
  scene_addItem : GraphicsScene -> SGI_Symbol -> World -> World;
  scene_removeItem : GraphicsScene -> SGI_Symbol -> World -> World;
  (** [connect(mComponentInstance, &ComponentInstance::attributesChanged,
      this, &SI_Symbol::schematicOrComponentAttributesChanged)] *)
  connect_attributesChanged : ComponentInstance -> SI_Symbol -> World -> World;
}.

Section SI_Symbol.
Context `{Foundation} `{Handles} `{!Collaborators}.
Local Open Scope method_scope.

(** [p->].  Following a null pointer has no defined behaviour; the
    model stops with [NullDereference].  The constructors and the
    operations on an instance never get there, see
    [construct_follows_no_null] and [run_follows_no_null]. *)
Definition deref {A} (p : option A) : Method A :=
  fun st =>
    match p with
    | Some a => (st, inr a)
    | None => (st, inl NullDereference)
    end.

(** [p == nullptr] *)
Definition is_nullptr {A} (p : option A) : bool :=
  match p with None => true | Some _ => false end.

(** *** checkAttributesValidity *)
Definition checkAttributesValidity (s : SI_Symbol) : bool :=
  if is_nullptr (mSymbVarItem s) then false
  else if is_nullptr (mSymbol s) then false
  else if isNull (mUuid s) then false
  else if is_nullptr (mComponentInstance s) then false
  else true.

(** [if (cond) throw e;] *)
Definition throw_if (cond : bool) (e : Exception) : Method unit :=
  fun st => if cond then (st, inl e) else (st, inr tt).

(** [this->member->], reading a pointer member and following it *)
Definition arrow {A} (member : SI_Symbol -> option A) : Method A :=
  s <- this ;; deref (member s).

(** [QHash::contains] and [QHash::count] *)
Definition contains {V} (m : gmap Uuid V) (k : Uuid) : bool :=
  bool_decide (is_Some (m !! k)).
Definition count {V} (m : gmap Uuid V) : nat := size m.

(** *** init *)

(** The body of the [foreach] over the pins of the library symbol. *)
Definition init_pin (libPin : LibSymbolPin) : Method unit :=
  s <- this ;;
  pin <- call_exc (SI_SymbolPin_new s (libpin_getUuid libPin)) ;;
  s <- this ;;
  throw_if (contains (mPins s) (libpin_getUuid libPin))
           (PinDefinedMultipleTimes (libpin_getUuid libPin)) ;;;
  item <- arrow mSymbVarItem ;;
  throw_if (negb (contains (item_getPinSignalMap item) (libpin_getUuid libPin)))
           (PinNotInSignalMap (libpin_getUuid libPin)) ;;;
  assign (fun s => set_mPins (<[libpin_getUuid libPin := pin]> (mPins s)) s).

Definition init (symbVarItemUuid : Uuid) : Method unit :=
  cmp <- arrow mComponentInstance ;;
  assign (set_mSymbVarItem (cmp_getItemByUuid cmp symbVarItemUuid)) ;;;
  s <- this ;;
  throw_if (is_nullptr (mSymbVarItem s)) (InvalidSymbVarItem symbVarItemUuid) ;;;

  item <- arrow mSymbVarItem ;;
  s <- this ;;
  assign (set_mSymbol (getSymbol (mSchematic s) (item_getSymbolUuid item))) ;;;
  s <- this ;;
  throw_if (is_nullptr (mSymbol s)) (NoSymbolInLibrary (item_getSymbolUuid item)) ;;;

  s <- this ;;
  gi <- call_ret (SGI_Symbol_new s) ;;
  assign (set_mGraphicsItem (Some gi)) ;;;
  s <- this ;;
  call (sgi_setPos gi (mPosition s)) ;;;
  call (sgi_setRotation gi (mRotation s)) ;;;

  sym <- arrow mSymbol ;;
  foreach (sym_getPins sym) init_pin ;;;
  s <- this ;;
  item <- arrow mSymbVarItem ;;
  throw_if (negb (count (mPins s) =? count (item_getPinSignalMap item))%nat)
           (PinCountMismatch (count (mPins s)) (count (item_getPinSignalMap item))) ;;;

  cmp <- arrow mComponentInstance ;;
  s <- this ;;
  call (connect_attributesChanged cmp s) ;;;

  s <- this ;;
  throw_if (negb (checkAttributesValidity s)) LogicError.

(** *** Constructors *)

(** A constructor starts from the members set by its initialiser list
    and runs its body; when the body throws there is no object. *)
Definition construct (s0 : SI_Symbol) (body : Method unit)
  : World -> World * Exc SI_Symbol :=
  fun w =>
    match body (s0, w) with
    | ((s, w'), inr _) => (w', inr s)
    | ((_, w'), inl e) => (w', inl e)
    end.

(** [SI_Symbol(Schematic&, const XmlDomElement&)] *)
Definition SI_Symbol_fromXml (schematic : Schematic)
    (domElement : XmlDomElement) : World -> World * Exc SI_Symbol :=
  construct
    {| mSchematic := schematic; mUuid := Uuid_default;
       mComponentInstance := None; mSymbVarItem := None; mSymbol := None;
       mPins := ∅; mGraphicsItem := None;
       mPosition := Point_default; mRotation := Angle_default |}
    (uuid <- eval (getAttribute (T:=Uuid) domElement "uuid") ;;
     assign (set_mUuid uuid) ;;;

     gcUuid <- eval (getAttribute (T:=Uuid) domElement "component_instance") ;;
     assign (set_mComponentInstance
               (getComponentInstanceByUuid schematic gcUuid)) ;;;
     s <- this ;;
     throw_if (is_nullptr (mComponentInstance s)) (NoComponentInCircuit gcUuid) ;;;

     position <- eval (getFirstChild domElement "position") ;;
     x <- eval (getAttribute (T:=Length) position "x") ;;
     assign (fun s => set_mPosition (setX x (mPosition s)) s) ;;;
     position <- eval (getFirstChild domElement "position") ;;
     y <- eval (getAttribute (T:=Length) position "y") ;;
     assign (fun s => set_mPosition (setY y (mPosition s)) s) ;;;
     position <- eval (getFirstChild domElement "position") ;;
     rotation <- eval (getAttribute (T:=Angle) position "rotation") ;;
     assign (set_mRotation rotation) ;;;

     symbVarItemUuid <- eval (getAttribute (T:=Uuid) domElement "symbol_item") ;;
     init symbVarItemUuid).

(** [SI_Symbol(Schematic&, ComponentInstance&, const Uuid&,
    const Point&, const Angle&)] *)
Definition SI_Symbol_placed (schematic : Schematic)
    (cmpInstance : ComponentInstance) (symbolItem : Uuid)
    (position : Point) (rotation : Angle) : World -> World * Exc SI_Symbol :=
  construct
    {| mSchematic := schematic; mUuid := Uuid_default;
       mComponentInstance := Some cmpInstance;
       mSymbVarItem := None; mSymbol := None;
       mPins := ∅; mGraphicsItem := None;
       mPosition := position; mRotation := rotation |}
    (uuid <- call_ret createRandom ;;
     assign (set_mUuid uuid) ;;;
     init symbolItem).

(** *** Getters *)

(** [getName]: the name of the component instance followed by the
    suffix of the variant item; [None] when a pointer is null. *)
Definition getName (s : SI_Symbol) : option string :=
  match mComponentInstance s, mSymbVarItem s with
  | Some cmp, Some item => Some (cmp_getName cmp +:+ item_getSuffix item)
  | _, _ => None
  end.

(** *** Setters *)

(** the values the [foreach] over [mPins] visits *)
Definition pins_of (s : SI_Symbol) : list SI_SymbolPin :=
  (map_to_list (mPins s)).*2.

Definition setPosition (newPos : Point) : Method unit :=
  assign (set_mPosition newPos) ;;;
  gi <- arrow mGraphicsItem ;;
  call (sgi_setPos gi newPos) ;;;
  gi <- arrow mGraphicsItem ;;
  call (sgi_updateCacheAndRepaint gi) ;;;
  s <- this ;;
  foreach (pins_of s) (fun pin => s <- this ;; call (pin_updatePosition pin s)).

Definition setRotation (newRotation : Angle) : Method unit :=
  assign (set_mRotation newRotation) ;;;
  gi <- arrow mGraphicsItem ;;
  call (sgi_setRotation gi newRotation) ;;;
  gi <- arrow mGraphicsItem ;;
  call (sgi_updateCacheAndRepaint gi) ;;;
  s <- this ;;
  foreach (pins_of s) (fun pin => s <- this ;; call (pin_updatePosition pin s)).

(** *** General methods *)

Definition addToSchematic (scene : GraphicsScene) : Method unit :=
  cmp <- arrow mComponentInstance ;;
  s <- this ;;
  call_exc (registerSymbol cmp s) ;;;
  gi <- arrow mGraphicsItem ;;
  call (scene_addItem scene gi) ;;;
  s <- this ;;
  foreach (pins_of s) (fun pin => call_exc (pin_addToSchematic pin scene)).

Definition removeFromSchematic (scene : GraphicsScene) : Method unit :=
  cmp <- arrow mComponentInstance ;;
  s <- this ;;
  call_exc (unregisterSymbol cmp s) ;;;
  gi <- arrow mGraphicsItem ;;
  call (scene_removeItem scene gi) ;;;
  s <- this ;;
  foreach (pins_of s) (fun pin => call_exc (pin_removeFromSchematic pin scene)).

(** [serializeToXmlDomElement]; the [position] child is filled before
    it is appended, where the source appends it and fills it through
    the pointer [appendChild] returns. *)
Definition serializeToXmlDomElement : Method XmlDomElement :=
  s <- this ;;
  throw_if (negb (checkAttributesValidity s)) LogicError ;;;

  let root := XmlDomElement_new "symbol" in
  s <- this ;;
  let root := setAttribute "uuid" (mUuid s) root in
  cmp <- arrow mComponentInstance ;;
  let root := setAttribute "component_instance" (cmp_getUuid cmp) root in
  item <- arrow mSymbVarItem ;;
  let root := setAttribute "symbol_item" (item_getUuid item) root in
  let position := XmlDomElement_new "position" in
  s <- this ;;
  let position := setAttribute "x" (getX (mPosition s)) position in
  let position := setAttribute "y" (getY (mPosition s)) position in
  let position := setAttribute "rotation" (mRotation s) position in
  ret (appendChild position root).

(** *** Helper methods *)

Definition mapToScene (s : SI_Symbol) (relativePos : Point) : Point :=
  rotated (point_plus (mPosition s) relativePos) (mRotation s) (mPosition s).

(** The parents [getAttributeValue] may pass a lookup to. *)
Inductive Parent := ParentComponent | ParentSchematic.

(** What a call of [getAttributeValue] leaves behind: the returned
    flag, the content of the output parameter, and the parents it
    asked, in order. *)
Record AttributeLookup := {
  found : bool;
  value : string;
  consulted : list Parent;
}.

(** [getAttributeValue]; [value0] is the content of the output
    parameter at the call.  [None] when a null pointer is followed. *)
Definition getAttributeValue (s : SI_Symbol) (attrNS attrKey : string)
    (passToParents : bool) (value0 : string) : option AttributeLookup :=
  if (bool_decide (attrNS = "SYM") || bool_decide (attrNS = EmptyString))
     && bool_decide (attrKey = "NAME")
  then
    name ← getName s;
    Some {| found := true; value := name; consulted := [] |}
  else if negb (bool_decide (attrNS = "SYM")) && passToParents then
    cmp ← mComponentInstance s;
    let (f1, v1) := cmp_getAttributeValue cmp attrNS attrKey false value0 in
    if f1 then
      Some {| found := true; value := v1; consulted := [ParentComponent] |}
    else
      let (f2, v2) := sch_getAttributeValue (mSchematic s) attrNS attrKey true v1 in
      if f2 then
        Some {| found := true; value := v2;
                consulted := [ParentComponent; ParentSchematic] |}
      else
        Some {| found := false; value := v2;
                consulted := [ParentComponent; ParentSchematic] |}
  else
    Some {| found := false; value := value0; consulted := [] |}.

(** *** The life of an instance *)

(** The operations a caller may apply to a constructed instance. *)
Inductive Operation :=
  | OpSetPosition (newPos : Point)
  | OpSetRotation (newRotation : Angle)
  | OpAddToSchematic (scene : GraphicsScene)
  | OpRemoveFromSchematic (scene : GraphicsScene)
  | OpSerializeToXmlDomElement.

Definition run (op : Operation) : Method unit :=
  match op with
  | OpSetPosition newPos => setPosition newPos
  | OpSetRotation newRotation => setRotation newRotation
  | OpAddToSchematic scene => addToSchematic scene
  | OpRemoveFromSchematic scene => removeFromSchematic scene
  | OpSerializeToXmlDomElement => _ <- serializeToXmlDomElement ;; ret tt
  end.

(** The instances of a schematic: what a constructor returned, and
    what an operation leaves of an instance, whether it returned or
    threw. *)
Inductive instance_of (schematic : Schematic) : SI_Symbol -> Prop :=
  | inst_fromXml domElement w w' s :
      SI_Symbol_fromXml schematic domElement w = (w', inr s) ->
      instance_of schematic s
  | inst_placed cmpInstance symbolItem position rotation w w' s :
      SI_Symbol_placed schematic cmpInstance symbolItem position rotation w
        = (w', inr s) ->
      instance_of schematic s
  | inst_run op s w s' w' r :
      instance_of schematic s ->
      run op (s, w) = ((s', w'), r) ->
      instance_of schematic s'.
End SI_Symbol.


(** * Specification *)

Section Specification.
Context `{Foundation} `{Handles} `{!Collaborators}.

(** the identifiers of the pins of a library symbol, in order *)
Definition pin_uuids (sym : LibSymbol) : list Uuid :=
  libpin_getUuid <$> sym_getPins sym.

(** What a successful [init] has established.  [s] is the instance at
    the call, [s'] the instance when [init] returns. *)
Record init_done (u : Uuid) (cmp : ComponentInstance) (s s' : SI_Symbol)
    (item : ComponentSymbolVariantItem) (sym : LibSymbol) : Prop := {
  done_item : cmp_getItemByUuid cmp u = Some item;
  done_symbol : getSymbol (mSchematic s) (item_getSymbolUuid item) = Some sym;
  done_mSchematic : mSchematic s' = mSchematic s;
  done_mUuid : mUuid s' = mUuid s;
  done_mComponentInstance : mComponentInstance s' = Some cmp;
  done_mSymbVarItem : mSymbVarItem s' = Some item;
  done_mSymbol : mSymbol s' = Some sym;
  done_mPosition : mPosition s' = mPosition s;
  done_mRotation : mRotation s' = mRotation s;
  done_graphics : is_Some (mGraphicsItem s');
  done_uuid_valid : isNull (mUuid s) = false;
  done_nodup : NoDup (pin_uuids sym);
  done_pins_fresh : forall pu, pu ∈ pin_uuids sym -> mPins s !! pu = None;
  done_pins_mapped :
    forall pu, pu ∈ pin_uuids sym -> is_Some (item_getPinSignalMap item !! pu);
  done_dom : dom (mPins s') = list_to_set (pin_uuids sym) ∪ dom (mPins s);
  done_count : size (mPins s') = size (item_getPinSignalMap item);
  done_length : size (mPins s') = length (sym_getPins sym) + size (mPins s);
}.

(** Pin objects can be created for a symbol bound to these three
    objects: [new SI_SymbolPin] returns for each pin of the library
    symbol, whatever the other members and the rest of the program. *)
Definition pins_constructible (cmp : ComponentInstance)
    (item : ComponentSymbolVariantItem) (sym : LibSymbol) : Prop :=
  forall st pu w,
    mComponentInstance st = Some cmp ->
    mSymbVarItem st = Some item ->
    mSymbol st = Some sym ->
    pu ∈ pin_uuids sym ->
    exists w' pin, SI_SymbolPin_new st pu w = (w', inr pin).

(** A method that leaves the members alone. *)
Definition preserves_this {A} (m : Method A) : Prop :=
  forall s w, fst (fst (m (s, w))) = s.

(** What holds of an instance [s] of [schematic] for as long as it
    lives: the objects it is bound to, and how its pins match them. *)
Record bound (schematic : Schematic) (s : SI_Symbol) (cmp : ComponentInstance)
    (item : ComponentSymbolVariantItem) (sym : LibSymbol) : Prop := {
  bound_mSchematic : mSchematic s = schematic;
  bound_mComponentInstance : mComponentInstance s = Some cmp;
  bound_mSymbVarItem : mSymbVarItem s = Some item;
  bound_mSymbol : mSymbol s = Some sym;
  bound_uuid : isNull (mUuid s) = false;
  bound_graphics : is_Some (mGraphicsItem s);
  bound_item : exists iu, cmp_getItemByUuid cmp iu = Some item;
  bound_symbol : getSymbol schematic (item_getSymbolUuid item) = Some sym;
  bound_nodup : NoDup (pin_uuids sym);
  bound_mapped :
    forall pu, pu ∈ pin_uuids sym -> is_Some (item_getPinSignalMap item !! pu);
  bound_dom : dom (mPins s) = list_to_set (pin_uuids sym);
  bound_count : size (mPins s) = size (item_getPinSignalMap item);
  bound_length : size (mPins s) = length (sym_getPins sym);
}.
(** Collaborators throw exceptions of the program; [NullDereference]
    is none. *)
Record collaborators_throw : Prop := {
  pin_new_throws : forall st pu w,
    snd (SI_SymbolPin_new st pu w) <> inl NullDereference;
  pin_add_throws : forall pin scene w,
    snd (pin_addToSchematic pin scene w) <> inl NullDereference;
  pin_remove_throws : forall pin scene w,
    snd (pin_removeFromSchematic pin scene w) <> inl NullDereference;
  register_throws : forall cmp st w,
    snd (registerSymbol cmp st w) <> inl NullDereference;
  unregister_throws : forall cmp st w,
    snd (unregisterSymbol cmp st w) <> inl NullDereference;
}.

(** The two ways to construct an instance. *)
Inductive Construction :=
  | FromXml (domElement : XmlDomElement)
  | Placed (cmpInstance : ComponentInstance) (symbolItem : Uuid)
           (position : Point) (rotation : Angle).

Definition construct_SI_Symbol (schematic : Schematic) (c : Construction)
  : World -> World * Exc SI_Symbol :=
  match c with
  | FromXml domElement => SI_Symbol_fromXml schematic domElement
  | Placed cmpInstance symbolItem position rotation =>
      SI_Symbol_placed schematic cmpInstance symbolItem position rotation
  end.

(** The component instance a construction refers to is [cmp]: found in
    the circuit under the identifier the saved element names, or
    handed over by the caller. *)
Definition names_component (schematic : Schematic) (c : Construction)
    (cmp : ComponentInstance) : Prop :=
  match c with
  | FromXml domElement =>
      exists gcUuid,
        getAttribute (T:=Uuid) domElement "component_instance" = inr gcUuid /\
        getComponentInstanceByUuid schematic gcUuid = Some cmp
  | Placed cmpInstance _ _ _ => cmpInstance = cmp
  end.

(** The identifier of the symbol-variant item a construction names. *)
Definition names_item (c : Construction) (symbVarItemUuid : Uuid) : Prop :=
  match c with
  | FromXml domElement =>
      getAttribute (T:=Uuid) domElement "symbol_item" = inr symbVarItemUuid
  | Placed _ symbolItem _ _ => symbolItem = symbVarItemUuid
  end.

(** A construction has a reference that does not resolve: the
    component instance, the symbol-variant item, or the library
    symbol.  A placement is handed its component instance and has no
    identifier of it to resolve. *)
Definition unresolved (schematic : Schematic) (c : Construction) : Prop :=
  (match c with
   | FromXml domElement =>
       exists gcUuid,
         getAttribute (T:=Uuid) domElement "component_instance" = inr gcUuid /\
         getComponentInstanceByUuid schematic gcUuid = None
   | Placed _ _ _ _ => False
   end) \/
  (exists cmp iu,
     names_component schematic c cmp /\ names_item c iu /\
     cmp_getItemByUuid cmp iu = None) \/
  (exists cmp iu item,
     names_component schematic c cmp /\ names_item c iu /\
     cmp_getItemByUuid cmp iu = Some item /\
     getSymbol schematic (item_getSymbolUuid item) = None).

(** The references of a construction resolve to these objects. *)
Definition resolves_to (schematic : Schematic) (c : Construction)
    (cmp : ComponentInstance) (item : ComponentSymbolVariantItem)
    (sym : LibSymbol) : Prop :=
  names_component schematic c cmp /\
  exists iu,
    names_item c iu /\
    cmp_getItemByUuid cmp iu = Some item /\
    getSymbol schematic (item_getSymbolUuid item) = Some sym.

(** The pins of a library symbol and a pin-signal map disagree: a pin
    that is no key of the map, two pins with one identifier, or more
    keys than pins. *)
Definition pins_mismatch (item : ComponentSymbolVariantItem) (sym : LibSymbol)
  : Prop :=
  (exists pu, pu ∈ pin_uuids sym /\ item_getPinSignalMap item !! pu = None) \/
  ~ NoDup (pin_uuids sym) \/
  length (sym_getPins sym) < size (item_getPinSignalMap item).

(** The four references the specification calls core: the sheet, the
    component instance, the symbol-variant item and the library symbol.
    [mSchematic] is a C++ reference and is bound in every instance. *)
Definition core_references_non_null (s : SI_Symbol) : bool :=
  true
  && negb (is_nullptr (mComponentInstance s))
  && negb (is_nullptr (mSymbVarItem s))
  && negb (is_nullptr (mSymbol s)).

(** The identifier a construction is to give the instance: the [uuid]
    attribute of the saved element, or what the random generator
    produces; the arguments of a placement play no part. *)
Definition assigned_uuid (c : Construction) (w : World) : Exc Uuid :=
  match c with
  | FromXml domElement => getAttribute (T:=Uuid) domElement "uuid"
  | Placed _ _ _ _ => inr (snd (createRandom w))
  end.

(** A value is read back from the text it is written as. *)
Definition reads_back {T} `{XmlAttribute T} (v : T) : Prop :=
  attr_read (attr_write v) = Some v.

(** The element the specification describes for an instance. *)
Definition symbol_element (uuid cmpUuid itemUuid : Uuid) (position : Point)
    (rotation : Angle) : XmlDomElement :=
  XmlElem "symbol"
    [("uuid", attr_write uuid);
     ("component_instance", attr_write cmpUuid);
     ("symbol_item", attr_write itemUuid)]
    [XmlElem "position"
       [("x", attr_write (getX position));
        ("y", attr_write (getY position));
        ("rotation", attr_write rotation)]
       []].

(** Translate by the position, then rotate about the position. *)
Definition translate_then_rotate (position : Point) (rotation : Angle)
    (relativePos : Point) : Point :=
  let translated := point_plus position relativePos in
  rotated translated rotation position.

(** Passing a lookup to the parents: the component instance is asked
    first, without passing on, and the schematic only when the
    component instance has no answer. *)
Definition ask_parents (cmp : ComponentInstance) (schematic : Schematic)
    (attrNS attrKey value0 : string) : AttributeLookup :=
  let (fromComponent, v1) := cmp_getAttributeValue cmp attrNS attrKey false value0 in
  if fromComponent then
    {| found := true; value := v1; consulted := [ParentComponent] |}
  else
    let (fromSchematic, v2) :=
      sch_getAttributeValue schematic attrNS attrKey true v1 in
    {| found := fromSchematic; value := v2;
       consulted := [ParentComponent; ParentSchematic] |}.

(** The condition under which the symbol answers an attribute lookup
    itself. *)
Definition asks_for_name (attrNS attrKey : string) : Prop :=
  (attrNS = "SYM" \/ attrNS = EmptyString) /\ attrKey = "NAME".
(** The members an operation leaves behind, whether it returns or
    throws: [setPosition] and [setRotation] assign before they do
    anything else, the other operations assign nothing. *)
Definition members_after (op : Operation) (s : SI_Symbol) : SI_Symbol :=
  match op with
  | OpSetPosition newPos => set_mPosition newPos s
  | OpSetRotation newRotation => set_mRotation newRotation s
  | OpAddToSchematic _ | OpRemoveFromSchematic _
  | OpSerializeToXmlDomElement => s
  end.

(** The exception [init] raises for a reference that does not resolve. *)
Definition resolution_error (schematic : Schematic) (cmp : ComponentInstance)
    (symbVarItemUuid : Uuid) : option Exception :=
  match cmp_getItemByUuid cmp symbVarItemUuid with
  | None => Some (InvalidSymbVarItem symbVarItemUuid)
  | Some item =>
      match getSymbol schematic (item_getSymbolUuid item) with
      | None => Some (NoSymbolInLibrary (item_getSymbolUuid item))
      | Some _ => None
      end
  end.

(** Pin objects can be created for these pins of a symbol under
    construction. *)
Definition pins_constructible_for (pins : list LibSymbolPin) : Prop :=
  forall st pu w,
    pu ∈ libpin_getUuid <$> pins ->
    exists w' pin, SI_SymbolPin_new st pu w = (w', inr pin).

(** Every pin in the list is a key of the pin-signal map. *)
Definition pins_mapped (item : ComponentSymbolVariantItem)
    (pins : list LibSymbolPin) : Prop :=
  forall pu, pu ∈ libpin_getUuid <$> pins ->
    is_Some (item_getPinSignalMap item !! pu).

(** The lookups of a schematic hand out objects that carry the
    identifier they were asked for. *)
Definition lookups_by_own_uuid (schematic : Schematic) : Prop :=
  (forall gcUuid cmp,
     getComponentInstanceByUuid schematic gcUuid = Some cmp ->
     cmp_getUuid cmp = gcUuid /\
     forall iu item,
       cmp_getItemByUuid cmp iu = Some item -> item_getUuid item = iu).
End Specification.




(** * A small project

    Concrete collaborators, to run the class on: identifiers are
    strings with the empty string as the null identifier, lengths are
    nanometres and angles microdegrees, both written in decimal. *)

Definition demo_foundation : Foundation := {|
  Uuid := string;
  Uuid_default := EmptyString;
  isNull := fun u => bool_decide (u = EmptyString);
  Length := Z;
  Length_default := 0%Z;
  Angle := Z;
  Angle_default := 0%Z;
  ForeignError := string;
|}.

(** The rest of the program: the next free handle, and the identifiers
    of the symbols registered with their component instance. *)
Record DemoWorld := {
  next_handle : nat;
  registered : list string;
}.

Definition demo_handles : Handles := {|
  World := DemoWorld;
  SGI_Symbol := nat;
  SI_SymbolPin := nat;
  GraphicsScene := unit;
|}.

Definition demo_allocate (w : DemoWorld) : DemoWorld * nat :=
  ({| next_handle := S (next_handle w); registered := registered w |},
   next_handle w).

Definition decimal_of_Z (z : Z) : string :=
  NilZero.string_of_int (Z.to_int z).
Definition Z_of_decimal (text : string) : option Z :=
  Z.of_int <$> NilZero.int_of_string text.

(** Quarter turns are exact; other angles need floating point and are
    left as they are. *)
Definition demo_rotated (px py : Z) (angle : Z) (cx cy : Z) : Z * Z :=
  let dx := (px - cx)%Z in
  let dy := (py - cy)%Z in
  let a := (angle mod 360000000)%Z in
  if (a =? 90000000)%Z then ((cx - dy)%Z, (cy + dx)%Z)
  else if (a =? 180000000)%Z then ((cx - dx)%Z, (cy - dy)%Z)
  else if (a =? 270000000)%Z then ((cx + dy)%Z, (cy - dx)%Z)
  else (px, py).

Section Demo.
#[local] Existing Instance demo_foundation.
#[local] Existing Instance demo_handles.

Definition demo_registered_already : Exception :=
  ForeignException "symbol is registered already".

Definition demo_register (s : SI_Symbol) (w : DemoWorld)
  : DemoWorld * Exc unit :=
  if bool_decide (mUuid s ∈ registered w)
  then (w, inl demo_registered_already)
  else ({| next_handle := next_handle w;
           registered := mUuid s :: registered w |}, inr tt).

Definition demo_unregister (s : SI_Symbol) (w : DemoWorld)
  : DemoWorld * Exc unit :=
  if bool_decide (mUuid s ∈ registered w)
  then ({| next_handle := next_handle w;
           registered := List.filter (fun u => negb (bool_decide (u = mUuid s)))
                                     (registered w) |}, inr tt)
  else (w, inl (ForeignException "symbol is not registered")).

Definition demo_collaborators : Collaborators := {|
  uuid_xml := {| attr_write := fun u : Uuid => u;
                 attr_read := fun text =>
                   if bool_decide (text = EmptyString) then None
                   else Some text |};
  length_xml := {| attr_write := decimal_of_Z; attr_read := Z_of_decimal |};
  angle_xml := {| attr_write := decimal_of_Z; attr_read := Z_of_decimal |};
  createRandom := fun w =>
    let (w', n) := demo_allocate w in
    (w', "random-" +:+ decimal_of_Z (Z.of_nat n));
  point_plus := fun p q =>
    {| getX := (getX p + getX q)%Z; getY := (getY p + getY q)%Z |};
  rotated := fun p angle center =>
    let (x, y) :=
      demo_rotated (getX p) (getY p) angle (getX center) (getY center) in
    {| getX := x; getY := y |};
  SGI_Symbol_new := fun _ w => demo_allocate w;
  sgi_setPos := fun _ _ w => w;
  sgi_setRotation := fun _ _ w => w;
  sgi_updateCacheAndRepaint := fun _ w => w;
  SI_SymbolPin_new := fun _ _ w =>
    let (w', n) := demo_allocate w in (w', inr n);
  pin_updatePosition := fun _ _ w => w;
  pin_addToSchematic := fun _ _ w => (w, inr tt);
  pin_removeFromSchematic := fun _ _ w => (w, inr tt);
  registerSymbol := fun _ s w => demo_register s w;
  unregisterSymbol := fun _ s w => demo_unregister s w;
  scene_addItem := fun _ _ w => w;
  scene_removeItem := fun _ _ w => w;
  connect_attributesChanged := fun _ _ w => w;
|}.
#[local] Existing Instance demo_collaborators.

Definition demo_world : World := {| next_handle := 0; registered := [] |}.

(** A resistor symbol with two pins, and the item of a component's
    symbol variant that uses it. *)
Definition demo_symbol : LibSymbol :=
  {| sym_getPins := [ {| libpin_getUuid := "pin-1" |};
                      {| libpin_getUuid := "pin-2" |} ] |}.

Definition demo_item : ComponentSymbolVariantItem := {|
  item_getUuid := "item-1";
  item_getSymbolUuid := "sym-resistor";
  item_getSuffix := "A";
  item_getPinSignalMap := {[ "pin-1" := "sig-a"; "pin-2" := "sig-b" ]};
|}.

(** An item whose symbol is not in the library. *)
Definition demo_item_lost : ComponentSymbolVariantItem := {|
  item_getUuid := "item-2";
  item_getSymbolUuid := "sym-missing";
  item_getSuffix := "B";
  item_getPinSignalMap := ∅;
|}.

(** An item that maps only one of the two pins of its symbol. *)
Definition demo_item_short : ComponentSymbolVariantItem := {|
  item_getUuid := "item-3";
  item_getSymbolUuid := "sym-resistor";
  item_getSuffix := "C";
  item_getPinSignalMap := {[ "pin-1" := "sig-a" ]};
|}.

(** The only item of a variant with one symbol: no suffix. *)
Definition demo_item_plain : ComponentSymbolVariantItem := {|
  item_getUuid := "item-4";
  item_getSymbolUuid := "sym-resistor";
  item_getSuffix := EmptyString;
  item_getPinSignalMap := {[ "pin-1" := "sig-a"; "pin-2" := "sig-b" ]};
|}.

(** The component instance answers for its name and its value in the
    namespace [CMP] and in the empty namespace. *)
Definition demo_component : ComponentInstance := {|
  cmp_getUuid := "cmp-1";
  cmp_getName := "R1";
  cmp_getItemByUuid := fun u =>
    if bool_decide (u = "item-1") then Some demo_item
    else if bool_decide (u = "item-2") then Some demo_item_lost
    else if bool_decide (u = "item-3") then Some demo_item_short
    else if bool_decide (u = "item-4") then Some demo_item_plain
    else None;
  cmp_getAttributeValue := fun attrNS attrKey _ value0 =>
    if bool_decide (attrNS = "CMP") || bool_decide (attrNS = EmptyString) then
      if bool_decide (attrKey = "NAME") then (true, "R1")
      else if bool_decide (attrKey = "VALUE") then (true, "10k")
      else (false, value0)
    else (false, value0);
|}.

Definition demo_schematic : Schematic := {|
  getComponentInstanceByUuid := fun u =>
    if bool_decide (u = "cmp-1") then Some demo_component else None;
  getSymbol := fun u =>
    if bool_decide (u = "sym-resistor") then Some demo_symbol else None;
  sch_getAttributeValue := fun attrNS attrKey _ value0 =>
    if bool_decide (attrKey = "SHEET") then (true, "Main") else (false, value0);
|}.

Definition demo_element (uuid cmp item : string) : XmlDomElement :=
  XmlElem "symbol"
    [("uuid", uuid); ("component_instance", cmp); ("symbol_item", item)]
    [XmlElem "position"
       [("x", "2540000"); ("y", "-5080000"); ("rotation", "90000000")] []].

(** The instance read from a saved element. *)
Definition demo_instance : SI_Symbol := {|
  mSchematic := demo_schematic;
  mUuid := "symbol-1";
  mComponentInstance := Some demo_component;
  mSymbVarItem := Some demo_item;
  mSymbol := Some demo_symbol;
  mPins := {[ "pin-1" := 1; "pin-2" := 2 ]};
  mGraphicsItem := Some 0;
  mPosition := {| getX := 2540000%Z; getY := (-5080000)%Z |};
  mRotation := 90000000%Z;
|}.

(** The instance a placement creates in [demo_world]. *)
Definition demo_position : Point :=
  {| getX := 1000000%Z; getY := 2000000%Z |}.

Definition demo_placed : SI_Symbol := {|
  mSchematic := demo_schematic;
  mUuid := "random-0";
  mComponentInstance := Some demo_component;
  mSymbVarItem := Some demo_item;
  mSymbol := Some demo_symbol;
  mPins := {[ "pin-1" := 2; "pin-2" := 3 ]};
  mGraphicsItem := Some 1;
  mPosition := demo_position;
  mRotation := 0%Z;
|}.

(** A component instance the circuit of [demo_schematic] does not
    hold. *)
Definition demo_component_stray : ComponentInstance := {|
  cmp_getUuid := "cmp-2";
  cmp_getName := "R2";
  cmp_getItemByUuid := cmp_getItemByUuid demo_component;
  cmp_getAttributeValue := fun _ _ _ value0 => (false, value0);
|}.

(** The world once [demo_instance] is read and added to the scene. *)
Definition demo_registered : World :=
  {| next_handle := 3; registered := ["symbol-1"] |}.

Definition demo_scene : GraphicsScene := tt.

(** The same instance, of the item without suffix. *)
Definition demo_instance_plain : SI_Symbol :=
  set_mSymbVarItem (Some demo_item_plain) demo_instance.

(** Bound to its three objects, but with the null identifier. *)
Definition demo_instance_null_uuid : SI_Symbol :=
  set_mUuid EmptyString demo_instance.
(** The members as the placement constructor hands them to [init]. *)
Definition demo_before_init : SI_Symbol := {|
  mSchematic := demo_schematic;
  mUuid := "random-0";
  mComponentInstance := Some demo_component;
  mSymbVarItem := None;
  mSymbol := None;
  mPins := ∅;
  mGraphicsItem := None;
  mPosition := demo_position;
  mRotation := 0%Z;
|}.

Definition demo_pin1 : LibSymbolPin := {| libpin_getUuid := "pin-1" |}.
Definition demo_pin2 : LibSymbolPin := {| libpin_getUuid := "pin-2" |}.


(** A symbol with one pin only. *)
Definition demo_symbol_single : LibSymbol :=
  {| sym_getPins := [ {| libpin_getUuid := "pin-1" |} ] |}.

Definition demo_component_of (item : ComponentSymbolVariantItem)
  : ComponentInstance := {|
  cmp_getUuid := "cmp-3";
  cmp_getName := "R3";
  cmp_getItemByUuid := fun u =>
    if bool_decide (u = item_getUuid item) then Some item else None;
  cmp_getAttributeValue := fun _ _ _ value0 => (false, value0);
|}.

(** A library that resolves every symbol identifier to [sym]. *)
Definition demo_schematic_of (sym : LibSymbol) : Schematic := {|
  getComponentInstanceByUuid := fun _ => None;
  getSymbol := fun _ => Some sym;
  sch_getAttributeValue := fun _ _ _ value0 => (false, value0);
|}.

Definition demo_before_init_of (sym : LibSymbol)
    (item : ComponentSymbolVariantItem) (uuid : Uuid) : SI_Symbol := {|
  mSchematic := demo_schematic_of sym;
  mUuid := uuid;
  mComponentInstance := Some (demo_component_of item);
  mSymbVarItem := None;
  mSymbol := None;
  mPins := ∅;
  mGraphicsItem := None;
  mPosition := demo_position;
  mRotation := 0%Z;
|}.


End Demo.



(** * Properties *)

Ltac run_method :=
  unfold construct, throw_if, arrow, deref, bind, this, assign, call,
    call_ret, call_exc, eval, throw, ret in *;
  simpl in *.

Section Properties.
Context `{Foundation} `{Handles} `{!Collaborators}.
Local Open Scope method_scope.

Implicit Types (s : SI_Symbol) (w : World) (u : Uuid).

Lemma set_mPins_twice m1 m2 s :
  set_mPins m1 (set_mPins m2 s) = set_mPins m1 s.
Proof. reflexivity. Qed.

Lemma set_mPins_same s : set_mPins (mPins s) s = s.
Proof. by destruct s. Qed.

Lemma contains_true {V} (m : gmap Uuid V) u :
  contains m u = true <-> is_Some (m !! u).
Proof. unfold contains. by rewrite bool_decide_eq_true. Qed.

Lemma contains_false {V} (m : gmap Uuid V) u :
  contains m u = false <-> m !! u = None.
Proof.
  unfold contains. rewrite bool_decide_eq_false.
  by rewrite eq_None_not_Some.
Qed.

(** One turn of the loop of [init], when it gets through. *)
Lemma init_pin_inr libPin s w s' w' item :
  mSymbVarItem s = Some item ->
  init_pin libPin (s, w) = ((s', w'), inr tt) ->
  exists pin,
    SI_SymbolPin_new s (libpin_getUuid libPin) w = (w', inr pin) /\
    mPins s !! libpin_getUuid libPin = None /\
    is_Some (item_getPinSignalMap item !! libpin_getUuid libPin) /\
    s' = set_mPins (<[libpin_getUuid libPin := pin]> (mPins s)) s.
Proof.
  intros Hitem. unfold init_pin. run_method.
  destruct (SI_SymbolPin_new s (libpin_getUuid libPin) w) as [w1 [e|pin]];
    simpl; [by intros [=]|].
  destruct (contains (mPins s) (libpin_getUuid libPin)) eqn:Hdup;
    simpl; [by intros [=]|].
  rewrite Hitem.
  destruct (contains (item_getPinSignalMap item) (libpin_getUuid libPin))
    eqn:Hmap; simpl; [|by intros [=]].
  intros [= <- <-]. exists pin.
  apply contains_false in Hdup. apply contains_true in Hmap. done.
Qed.

(** Whatever a turn of the loop does, it only touches [mPins]. *)
Lemma init_pin_frame libPin s w s' w' r :
  init_pin libPin (s, w) = ((s', w'), r) ->
  s' = set_mPins (mPins s') s.
Proof.
  unfold init_pin. run_method.
  destruct (SI_SymbolPin_new s (libpin_getUuid libPin) w) as [w1 [e|pin]];
    simpl.
  { intros [= <- _ _]. by rewrite set_mPins_same. }
  destruct (contains (mPins s) (libpin_getUuid libPin)); simpl.
  { intros [= <- _ _]. by rewrite set_mPins_same. }
  destruct (mSymbVarItem s) as [item|]; simpl.
  2:{ intros [= <- _ _]. by rewrite set_mPins_same. }
  destruct (contains (item_getPinSignalMap item) (libpin_getUuid libPin)); simpl.
  - intros [= <- _ _]. done.
  - intros [= <- _ _]. by rewrite set_mPins_same.
Qed.

Lemma foreach_init_pin_frame pins : forall s w s' w' r,
  foreach pins init_pin (s, w) = ((s', w'), r) ->
  s' = set_mPins (mPins s') s.
Proof.
  induction pins as [|p pins IH]; intros s w s' w' r; simpl.
  - run_method. intros [= <- _ _]. by rewrite set_mPins_same.
  - unfold bind at 1.
    destruct (init_pin p (s, w)) as [[s1 w1] [e|[]]] eqn:Hp.
    + intros [= <- _ _]. eauto using init_pin_frame.
    + intros Hrest. apply IH in Hrest. apply init_pin_frame in Hp.
      rewrite Hrest, Hp. done.
Qed.

(** The loop of [init], when it gets through: the pins were pairwise
    different, none was in [mPins] before, each is a key of the
    pin-signal map, and [mPins] has grown by exactly these keys. *)
Lemma foreach_init_pin_inr pins : forall s w s' w' item,
  mSymbVarItem s = Some item ->
  foreach pins init_pin (s, w) = ((s', w'), inr tt) ->
  NoDup (libpin_getUuid <$> pins) /\
  (forall u, u ∈ libpin_getUuid <$> pins ->
     mPins s !! u = None /\ is_Some (item_getPinSignalMap item !! u)) /\
  dom (mPins s') = list_to_set (libpin_getUuid <$> pins) ∪ dom (mPins s) /\
  size (mPins s') = length pins + size (mPins s).
Proof.
  induction pins as [|p pins IH]; intros s w s' w' item Hitem; simpl.
  - run_method. intros Heq. injection Heq as <- <-.
    split_and!; [constructor | set_solver | set_solver | done].
  - unfold bind at 1.
    destruct (init_pin p (s, w)) as [[s1 w1] [e|[]]] eqn:Hp; [done|].
    intros Hrest.
    destruct (init_pin_inr _ _ _ _ _ _ Hitem Hp) as (pin & _ & Hfresh & Hmap & ->).
    apply (IH _ _ _ _ item) in Hrest; [|done].
    destruct Hrest as (Hnd & Hall & Hdom & Hsize).
    change (mPins (set_mPins ?m _)) with m in *.
    assert (Hnotin : libpin_getUuid p ∉ libpin_getUuid <$> pins).
    { intros Hin. destruct (Hall _ Hin) as [Hl _].
      by rewrite lookup_insert_eq in Hl. }
    split_and!.
    + by constructor.
    + intros u [->|Hin]%elem_of_cons; [done|].
      destruct (Hall _ Hin) as [Hl Hm]. split; [|done].
      rewrite lookup_insert_ne in Hl; [done|]. by intros <-.
    + rewrite Hdom, dom_insert_L. set_solver.
    + rewrite Hsize, map_size_insert_None by done. lia.
Qed.

Lemma init_inr u cmp s w s' w' :
  mComponentInstance s = Some cmp ->
  init u (s, w) = ((s', w'), inr tt) ->
  exists item sym, init_done u cmp s s' item sym.
Proof.
  intros Hcmp. unfold init. run_method. rewrite Hcmp. simpl.
  destruct (cmp_getItemByUuid cmp u) as [item|] eqn:Hitem; simpl;
    [|by intros [=]].
  destruct (getSymbol (mSchematic s) (item_getSymbolUuid item)) as [sym|]
    eqn:Hsym; simpl; [|by intros [=]].
  destruct (SGI_Symbol_new _ w) as [w1 gi]; simpl.
  match goal with
  | |- context [foreach _ _ (?s3, ?w3)] =>
      destruct (foreach (sym_getPins sym) init_pin (s3, w3))
        as [[s4 w4] [e|[]]] eqn:Hloop
  end; simpl; [by intros [=]|].
  pose proof (foreach_init_pin_frame _ _ _ _ _ _ Hloop) as Hs4.
  eapply foreach_init_pin_inr in Hloop; [|reflexivity].
  destruct Hloop as (Hnd & Hall & Hdom & Hlen). simpl in Hall, Hdom, Hlen.
  rewrite Hs4. simpl.
  destruct (count _ =? count _)%nat eqn:Hcount; simpl; [|by intros [=]].
  apply Nat.eqb_eq in Hcount. rewrite Hcmp. simpl.
  unfold checkAttributesValidity. simpl.
  destruct (isNull (mUuid s)) eqn:Hnull; simpl; [by intros [=]|].
  rewrite Hcmp. simpl. intros Heq. injection Heq as <- <-.
  exists item, sym. split; simpl; try done.
  - intros pu Hpu. by apply Hall.
  - intros pu Hpu. by apply Hall.
Qed.

(** The loop of [init] gets through when the pins are pairwise
    different, new to [mPins] and keys of the pin-signal map, and their
    objects can be created. *)
Lemma foreach_init_pin_ok item pins : forall s w,
  mSymbVarItem s = Some item ->
  (forall m pu w, pu ∈ libpin_getUuid <$> pins ->
     exists w' pin, SI_SymbolPin_new (set_mPins m s) pu w = (w', inr pin)) ->
  NoDup (libpin_getUuid <$> pins) ->
  (forall pu, pu ∈ libpin_getUuid <$> pins ->
     mPins s !! pu = None /\ is_Some (item_getPinSignalMap item !! pu)) ->
  exists s' w', foreach pins init_pin (s, w) = ((s', w'), inr tt).
Proof.
  induction pins as [|p pins IH]; intros s w Hitem Hnew Hnd Hall; simpl.
  - by exists s, w.
  - apply NoDup_cons in Hnd as [Hnotin Hnd].
    destruct (Hall (libpin_getUuid p)) as [Hfresh Hmap]; [set_solver|].
    destruct (Hnew (mPins s) (libpin_getUuid p) w) as (w1 & pin & Hpin);
      [set_solver|].
    rewrite set_mPins_same in Hpin.
    unfold bind at 1. unfold init_pin at 1. run_method.
    rewrite Hpin. simpl.
    apply contains_false in Hfresh. rewrite Hfresh. simpl.
    rewrite Hitem. simpl.
    apply contains_true in Hmap. rewrite Hmap. simpl.
    apply IH.
    + done.
    + intros m pu w2 Hpu. apply (Hnew m pu w2). set_solver.
    + done.
    + intros pu Hpu. destruct (Hall pu) as [Hl Hm]; [set_solver|].
      split; [|done]. simpl. rewrite lookup_insert_ne; [done|].
      intros <-. done.
Qed.

Lemma init_ok u cmp item sym s w :
  mComponentInstance s = Some cmp ->
  cmp_getItemByUuid cmp u = Some item ->
  getSymbol (mSchematic s) (item_getSymbolUuid item) = Some sym ->
  pins_constructible cmp item sym ->
  NoDup (pin_uuids sym) ->
  (forall pu, pu ∈ pin_uuids sym ->
     mPins s !! pu = None /\ is_Some (item_getPinSignalMap item !! pu)) ->
  length (sym_getPins sym) + size (mPins s) = size (item_getPinSignalMap item) ->
  isNull (mUuid s) = false ->
  exists s' w', init u (s, w) = ((s', w'), inr tt).
Proof.
  intros Hcmp Hitem Hsym Hnew Hnd Hall Hlen Hnull.
  unfold init. run_method. rewrite Hcmp. simpl. rewrite Hitem. simpl.
  rewrite Hsym. simpl.
  destruct (SGI_Symbol_new _ w) as [w1 gi]; simpl.
  match goal with
  | |- context [foreach _ _ (?s3, ?w3)] =>
      destruct (foreach_init_pin_ok item (sym_getPins sym) s3 w3)
        as (s4 & w4 & Hloop)
  end; try done.
  { intros m pu w2 Hpu. by apply Hnew. }
  rewrite Hloop. simpl.
  pose proof (foreach_init_pin_frame _ _ _ _ _ _ Hloop) as Hs4.
  eapply foreach_init_pin_inr in Hloop; [|reflexivity].
  destruct Hloop as (_ & _ & _ & Hsize). simpl in Hsize.
  rewrite Hs4. simpl. unfold count. rewrite Hsize, Hlen, Nat.eqb_refl. simpl.
  rewrite Hcmp. simpl. unfold checkAttributesValidity. simpl.
  rewrite Hnull, Hcmp. simpl. eauto.
Qed.

(** ** Methods that leave the members alone *)

Lemma preserves_ret {A} (a : A) : preserves_this (ret a).
Proof. by intros s w. Qed.

Lemma preserves_throw {A} e : preserves_this (throw (A:=A) e).
Proof. by intros s w. Qed.

Lemma preserves_this_read : preserves_this this.
Proof. by intros s w. Qed.

Lemma preserves_call f : preserves_this (call f).
Proof. by intros s w. Qed.

Lemma preserves_call_ret {A} (f : World -> World * A) :
  preserves_this (call_ret f).
Proof. intros s w. unfold call_ret. simpl. by destruct (f w). Qed.

Lemma preserves_call_exc {A} (f : World -> World * Exc A) :
  preserves_this (call_exc f).
Proof. intros s w. unfold call_exc. simpl. by destruct (f w). Qed.

Lemma preserves_eval {A} (r : Exc A) : preserves_this (eval r).
Proof. by intros s w. Qed.

Lemma preserves_deref {A} (p : option A) : preserves_this (deref p).
Proof. intros s w. unfold deref. by destruct p. Qed.

Lemma preserves_throw_if c e : preserves_this (throw_if c e).
Proof. intros s w. unfold throw_if. by destruct c. Qed.

Lemma preserves_bind {A B} (m : Method A) (k : A -> Method B) :
  preserves_this m -> (forall a, preserves_this (k a)) ->
  preserves_this (bind m k).
Proof.
  intros Hm Hk s w. unfold bind. specialize (Hm s w).
  destruct (m (s, w)) as [[s1 w1] [e|a]]; simpl in *; [done|].
  subst s1. apply Hk.
Qed.

Lemma preserves_arrow {A} (member : SI_Symbol -> option A) :
  preserves_this (arrow member).
Proof.
  unfold arrow. apply preserves_bind; [apply preserves_this_read|].
  intros a. apply preserves_deref.
Qed.

Lemma preserves_foreach {A} (l : list A) (body : A -> Method unit) :
  (forall x, preserves_this (body x)) -> preserves_this (foreach l body).
Proof.
  intros Hbody. induction l as [|x l IH]; simpl.
  - apply preserves_ret.
  - apply preserves_bind; [apply Hbody | by intros _].
Qed.

Create HintDb method discriminated.
#[local] Hint Resolve preserves_ret preserves_throw preserves_this_read
  preserves_call preserves_call_ret preserves_call_exc preserves_eval
  preserves_deref preserves_throw_if preserves_arrow : method.
#[local] Hint Extern 2 (preserves_this (bind _ _)) =>
  apply preserves_bind; [|intros ?] : method.
#[local] Hint Extern 2 (preserves_this (foreach _ _)) =>
  apply preserves_foreach; intros ? : method.

Lemma addToSchematic_preserves scene : preserves_this (addToSchematic scene).
Proof. unfold addToSchematic. auto 20 with method. Qed.

Lemma removeFromSchematic_preserves scene :
  preserves_this (removeFromSchematic scene).
Proof. unfold removeFromSchematic. auto 20 with method. Qed.

Lemma serializeToXmlDomElement_preserves :
  preserves_this serializeToXmlDomElement.
Proof. unfold serializeToXmlDomElement. auto 30 with method. Qed.

Lemma after_assign {A} f (m : Method A) s w :
  preserves_this m -> fst (fst (bind (assign f) (fun _ => m) (s, w))) = f s.
Proof. intros Hm. unfold bind, assign. simpl. apply Hm. Qed.

Lemma setPosition_this newPos s w :
  fst (fst (setPosition newPos (s, w))) = set_mPosition newPos s.
Proof.
  unfold setPosition. apply after_assign. auto 20 with method.
Qed.

Lemma setRotation_this newRotation s w :
  fst (fst (setRotation newRotation (s, w))) = set_mRotation newRotation s.
Proof.
  unfold setRotation. apply after_assign. auto 20 with method.
Qed.

(** An operation changes at most the position and the rotation. *)
Lemma run_this op s w :
  exists p a, fst (fst (run op (s, w))) = set_mPosition p (set_mRotation a s).
Proof.
  destruct op as [newPos|newRotation|scene|scene|]; simpl.
  - exists newPos, (mRotation s). rewrite setPosition_this. by destruct s.
  - exists (mPosition s), newRotation. rewrite setRotation_this. by destruct s.
  - exists (mPosition s), (mRotation s).
    rewrite addToSchematic_preserves. by destruct s.
  - exists (mPosition s), (mRotation s).
    rewrite removeFromSchematic_preserves. by destruct s.
  - exists (mPosition s), (mRotation s).
    rewrite (preserves_bind serializeToXmlDomElement (fun _ => ret tt)).
    + by destruct s.
    + apply serializeToXmlDomElement_preserves.
    + intros _. apply preserves_ret.
Qed.

(** ** The class invariant *)

Lemma init_done_bound u cmp s s' item sym :
  mPins s = ∅ ->
  init_done u cmp s s' item sym ->
  bound (mSchematic s) s' cmp item sym.
Proof.
  intros Hempty [].
  split; try done.
  - congruence.
  - by exists u.
  - rewrite done_dom0, Hempty. set_solver.
  - rewrite done_length0, Hempty, map_size_empty. lia.
Qed.

(** The instance before [init] runs, as the constructor from XML has
    set it up. *)
Lemma fromXml_inr schematic domElement w w' s :
  SI_Symbol_fromXml schematic domElement w = (w', inr s) ->
  exists gcUuid position symbVarItemUuid cmp item sym,
    getAttribute domElement "uuid" = inr (mUuid s) /\
    getAttribute domElement "component_instance" = inr gcUuid /\
    getComponentInstanceByUuid schematic gcUuid = Some cmp /\
    getFirstChild domElement "position" = inr position /\
    getAttribute position "x" = inr (getX (mPosition s)) /\
    getAttribute position "y" = inr (getY (mPosition s)) /\
    getAttribute position "rotation" = inr (mRotation s) /\
    getAttribute domElement "symbol_item" = inr symbVarItemUuid /\
    cmp_getItemByUuid cmp symbVarItemUuid = Some item /\
    bound schematic s cmp item sym.
Proof.
  unfold SI_Symbol_fromXml. run_method.
  destruct (getAttribute (T:=Uuid) domElement "uuid") as [e|uuid]; simpl;
    [by intros [=]|].
  destruct (getAttribute (T:=Uuid) domElement "component_instance")
    as [e|gcUuid]; simpl; [by intros [=]|].
  destruct (getComponentInstanceByUuid schematic gcUuid) as [cmp|] eqn:Hcmp;
    simpl; [|by intros [=]].
  destruct (getFirstChild domElement "position") as [e|position]; simpl;
    [by intros [=]|].
  destruct (getAttribute (T:=Length) position "x") as [e|x] eqn:Hx; simpl;
    [by intros [=]|].
  destruct (getAttribute (T:=Length) position "y") as [e|y] eqn:Hy; simpl;
    [by intros [=]|].
  destruct (getAttribute (T:=Angle) position "rotation") as [e|rotation]
    eqn:Hrot; simpl; [by intros [=]|].
  destruct (getAttribute (T:=Uuid) domElement "symbol_item") as [e|iu];
    simpl; [by intros [=]|].
  match goal with
  | |- context [init iu (?s0, w)] =>
      destruct (init iu (s0, w)) as [[s1 w1] [e|[]]] eqn:Hinit
  end; [by intros [=]|].
  intros Heq. injection Heq as <- <-.
  apply (init_inr _ cmp) in Hinit as (item & sym & Hdone); [|done].
  pose proof Hdone as Hb. apply init_done_bound in Hb; [|reflexivity].
  destruct Hdone. simpl in *.
  exists gcUuid, position, iu, cmp, item, sym.
  rewrite done_mUuid0, done_mPosition0, done_mRotation0. simpl. done.
Qed.

Lemma placed_inr schematic cmp symbolItem position rotation w w' s :
  SI_Symbol_placed schematic cmp symbolItem position rotation w = (w', inr s) ->
  exists item sym,
    mUuid s = snd (createRandom w) /\
    mPosition s = position /\
    mRotation s = rotation /\
    cmp_getItemByUuid cmp symbolItem = Some item /\
    bound schematic s cmp item sym.
Proof.
  unfold SI_Symbol_placed. run_method.
  destruct (createRandom w) as [w0 uuid]; simpl.
  match goal with
  | |- context [init symbolItem (?s0, w0)] =>
      destruct (init symbolItem (s0, w0)) as [[s1 w1] [e|[]]] eqn:Hinit
  end; [by intros [=]|].
  intros Heq. injection Heq as <- <-.
  apply (init_inr _ cmp) in Hinit as (item & sym & Hdone); [|done].
  pose proof Hdone as Hb. apply init_done_bound in Hb; [|reflexivity].
  destruct Hdone. simpl in *.
  exists item, sym. done.
Qed.

Lemma bound_moved schematic s cmp item sym p a :
  bound schematic s cmp item sym ->
  bound schematic (set_mPosition p (set_mRotation a s)) cmp item sym.
Proof. intros []. by split. Qed.

(** Every instance satisfies the class invariant. *)
Lemma instance_bound schematic s :
  instance_of schematic s -> exists cmp item sym, bound schematic s cmp item sym.
Proof.
  induction 1 as [domElement w w' s Hctor
                 |cmp symbolItem position rotation w w' s Hctor
                 |op s w s' w' r _ IH Hrun].
  - apply fromXml_inr in Hctor as (?&?&?&cmp&item&sym&?&?&?&?&?&?&?&?&?&?).
    by exists cmp, item, sym.
  - apply placed_inr in Hctor as (item&sym&?&?&?&?&?).
    by exists cmp, item, sym.
  - destruct IH as (cmp & item & sym & Hb).
    destruct (run_this op s w) as (p & a & Hthis).
    rewrite Hrun in Hthis. simpl in Hthis. subst s'.
    exists cmp, item, sym. by apply bound_moved.
Qed.

(** With the invariant, the keys of [mPins] are the keys of the
    pin-signal map. *)
Lemma bound_dom_map schematic s cmp item sym :
  bound schematic s cmp item sym ->
  dom (mPins s) = dom (item_getPinSignalMap item).
Proof.
  intros Hb. apply set_subseteq_size_eq.
  - rewrite (bound_dom _ _ _ _ _ Hb). intros pu Hpu.
    apply elem_of_list_to_set in Hpu. apply elem_of_dom.
    by apply (bound_mapped _ _ _ _ _ Hb).
  - rewrite !size_dom. by rewrite (bound_count _ _ _ _ _ Hb).
Qed.
(** ** Constructors *)

(** What every successful construction has resolved. *)
Lemma construct_inr schematic c w w' s :
  construct_SI_Symbol schematic c w = (w', inr s) ->
  exists cmp iu item sym,
    names_component schematic c cmp /\ names_item c iu /\
    cmp_getItemByUuid cmp iu = Some item /\
    bound schematic s cmp item sym.
Proof.
  destruct c as [domElement|cmp symbolItem position rotation]; simpl.
  - intros Hctor.
    apply fromXml_inr in Hctor
      as (gc & pos & iu & cmp & item & sym & _ & Hgc & Hcmp & _ & _ & _ & _
          & Hiu & Hitem & Hb).
    exists cmp, iu, item, sym. split_and!; try done. by exists gc.
  - intros Hctor.
    apply placed_inr in Hctor as (item & sym & _ & _ & _ & Hitem & Hb).
    by exists cmp, symbolItem, item, sym.
Qed.

Lemma names_component_unique schematic c cmp1 cmp2 :
  names_component schematic c cmp1 -> names_component schematic c cmp2 ->
  cmp1 = cmp2.
Proof.
  destruct c; simpl.
  - intros (gc1 & Ha1 & Hc1) (gc2 & Ha2 & Hc2). congruence.
  - congruence.
Qed.

Lemma names_item_unique c iu1 iu2 :
  names_item c iu1 -> names_item c iu2 -> iu1 = iu2.
Proof. destruct c; simpl; congruence. Qed.

Lemma thrown_or_returned {A} (r : Exc A) :
  (forall a, r = inr a -> False) -> is_thrown r.
Proof. destruct r as [e|a]; simpl; [done|]. intros Hr. by apply (Hr a). Qed.

(** C1: the keys of the pin map of an instance are the keys of the
    pin-signal map of its symbol-variant item, the two maps have the
    same number of entries, and these keys are the identifiers of the
    pins of the library symbol, none of which occurs twice.  This
    holds of what either constructor returns and of what [setPosition],
    [setRotation], [addToSchematic], [removeFromSchematic] and
    [serializeToXmlDomElement] leave of an instance. *)
Theorem pins_match_pin_signal_map schematic s :
  instance_of schematic s ->
  exists item sym,
    mSymbVarItem s = Some item /\
    mSymbol s = Some sym /\
    dom (mPins s) = dom (item_getPinSignalMap item) /\
    size (mPins s) = size (item_getPinSignalMap item) /\
    dom (mPins s) = list_to_set (pin_uuids sym) /\
    NoDup (pin_uuids sym).
Proof.
  intros Hinst. apply instance_bound in Hinst as (cmp & item & sym & Hb).
  exists item, sym. split_and!.
  - apply (bound_mSymbVarItem _ _ _ _ _ Hb).
  - apply (bound_mSymbol _ _ _ _ _ Hb).
  - apply (bound_dom_map _ _ _ _ _ Hb).
  - apply (bound_count _ _ _ _ _ Hb).
  - apply (bound_dom _ _ _ _ _ Hb).
  - apply (bound_nodup _ _ _ _ _ Hb).
Qed.

(** C2: a construction, from a saved element or by placement, throws
    and yields no instance when the component instance, the
    symbol-variant item or the library symbol it refers to does not
    resolve. *)
Theorem construction_throws_when_unresolved schematic c w :
  unresolved schematic c ->
  is_thrown (snd (construct_SI_Symbol schematic c w)).
Proof.
  intros Hun. apply thrown_or_returned. intros s Hs.
  destruct (construct_SI_Symbol schematic c w) as [w' r] eqn:Hctor.
  simpl in Hs. subst r.
  apply construct_inr in Hctor
    as (cmp & iu & item & sym & Hcmp & Hiu & Hitem & Hb).
  destruct Hun as [Hno|[(cmp' & iu' & Hcmp' & Hiu' & Hno)
                       |(cmp' & iu' & item' & Hcmp' & Hiu' & Hitem' & Hno)]].
  - destruct c as [domElement|]; [|done]. simpl in Hcmp.
    destruct Hno as (gc & Hgc & Hnone). destruct Hcmp as (gc' & Hgc' & Hsome).
    congruence.
  - rewrite (names_component_unique _ _ _ _ Hcmp' Hcmp) in Hno.
    rewrite (names_item_unique _ _ _ Hiu' Hiu) in Hno. congruence.
  - rewrite (names_component_unique _ _ _ _ Hcmp' Hcmp) in Hitem'.
    rewrite (names_item_unique _ _ _ Hiu' Hiu) in Hitem'.
    assert (item' = item) as -> by congruence.
    rewrite (bound_symbol _ _ _ _ _ Hb) in Hno. done.
Qed.

(** C3: a construction whose references resolve throws and yields no
    instance when the pins of the library symbol and the pin-signal
    map of the variant item disagree: a pin identifier that is no key
    of the map, a pin identifier that occurs twice, or a map with more
    entries than the symbol has pins. *)
Theorem construction_throws_on_pin_mismatch schematic c w cmp item sym :
  resolves_to schematic c cmp item sym ->
  pins_mismatch item sym ->
  is_thrown (snd (construct_SI_Symbol schematic c w)).
Proof.
  intros (Hcmp & iu & Hiu & Hitem & Hsym) Hmis.
  apply thrown_or_returned. intros s Hs.
  destruct (construct_SI_Symbol schematic c w) as [w' r] eqn:Hctor.
  simpl in Hs. subst r.
  apply construct_inr in Hctor
    as (cmp' & iu' & item' & sym' & Hcmp' & Hiu' & Hitem' & Hb).
  rewrite (names_component_unique _ _ _ _ Hcmp' Hcmp) in *.
  rewrite (names_item_unique _ _ _ Hiu' Hiu) in *.
  assert (item' = item) as -> by congruence.
  assert (sym' = sym) as ->.
  { pose proof (bound_symbol _ _ _ _ _ Hb). congruence. }
  destruct Hmis as [(pu & Hpu & Hnone)|[Hdup|Hmore]].
  - destruct (bound_mapped _ _ _ _ _ Hb pu Hpu) as [sig Hsig]. congruence.
  - apply Hdup, (bound_nodup _ _ _ _ _ Hb).
  - pose proof (bound_count _ _ _ _ _ Hb).
    pose proof (bound_length _ _ _ _ _ Hb). lia.
Qed.

(** What [checkAttributesValidity] looks at. *)
Lemma valid_iff s :
  checkAttributesValidity s = true <->
  mSymbVarItem s <> None /\ mSymbol s <> None /\
  isNull (mUuid s) = false /\ mComponentInstance s <> None.
Proof.
  unfold checkAttributesValidity.
  destruct (mSymbVarItem s), (mSymbol s), (isNull (mUuid s)),
    (mComponentInstance s); simpl; naive_solver.
Qed.

Lemma bound_valid schematic s cmp item sym :
  bound schematic s cmp item sym -> checkAttributesValidity s = true.
Proof.
  intros Hb. apply valid_iff.
  rewrite (bound_mSymbVarItem _ _ _ _ _ Hb), (bound_mSymbol _ _ _ _ _ Hb),
    (bound_mComponentInstance _ _ _ _ _ Hb), (bound_uuid _ _ _ _ _ Hb).
  done.
Qed.

(** An invalid instance is not serialised. *)
Lemma serialize_invalid s w :
  checkAttributesValidity s = false ->
  serializeToXmlDomElement (s, w) = ((s, w), inl LogicError).
Proof.
  intros Hinvalid. unfold serializeToXmlDomElement. run_method.
  by rewrite Hinvalid.
Qed.

(** C4, as the code has it: an instance is valid exactly when the
    pointers to the symbol-variant item, to the library symbol and to
    the component instance are not null and the identifier of the
    instance is not the null identifier; the sheet is held by reference
    and is not looked at.  No constructor returns an instance that is
    not valid, and [serializeToXmlDomElement] throws a [LogicError] for
    one. *)
Theorem checkAttributesValidity_iff s :
  (checkAttributesValidity s = true <->
   mSymbVarItem s <> None /\ mSymbol s <> None /\
   isNull (mUuid s) = false /\ mComponentInstance s <> None) /\
  (forall schematic c w w',
     construct_SI_Symbol schematic c w = (w', inr s) ->
     checkAttributesValidity s = true) /\
  (forall w,
     checkAttributesValidity s = false ->
     serializeToXmlDomElement (s, w) = ((s, w), inl LogicError)).
Proof.
  split_and!.
  - apply valid_iff.
  - intros schematic c w w' Hctor.
    apply construct_inr in Hctor as (cmp & iu & item & sym & _ & _ & _ & Hb).
    by eapply bound_valid.
  - intros w. apply serialize_invalid.
Qed.

(** C6: the identifier of a constructed instance is the [uuid]
    attribute of the saved element it was read from, or, for a placed
    instance, what the random generator produced, whatever the
    arguments of the placement. *)
Theorem constructed_uuid schematic c w w' s :
  construct_SI_Symbol schematic c w = (w', inr s) ->
  assigned_uuid c w = inr (mUuid s).
Proof.
  destruct c as [domElement|cmp symbolItem position rotation]; simpl.
  - intros Hctor.
    by apply fromXml_inr in Hctor as (?&?&?&?&?&?&Huuid&_).
  - intros Hctor.
    apply placed_inr in Hctor as (?&?&Huuid&_). by rewrite Huuid.
Qed.

(** C8: [mapToScene] translates the relative position by the position
    of the instance and rotates the result by the rotation of the
    instance about the position of the instance. *)
Theorem mapToScene_translate_then_rotate s relativePos :
  mapToScene s relativePos
  = translate_then_rotate (mPosition s) (mRotation s) relativePos.
Proof. reflexivity. Qed.
(** ** Serialisation *)

Lemma serialize_valid s w cmp item :
  checkAttributesValidity s = true ->
  mComponentInstance s = Some cmp ->
  mSymbVarItem s = Some item ->
  serializeToXmlDomElement (s, w)
  = ((s, w), inr (symbol_element (mUuid s) (cmp_getUuid cmp) (item_getUuid item)
                    (mPosition s) (mRotation s))).
Proof.
  intros Hvalid Hcmp Hitem. unfold serializeToXmlDomElement. run_method.
  rewrite Hvalid. simpl. rewrite Hcmp. simpl. rewrite Hitem. simpl.
  reflexivity.
Qed.

(** C5: for a valid instance [serializeToXmlDomElement] returns an
    element named [symbol] with the attributes [uuid],
    [component_instance] and [symbol_item], which hold the identifiers
    of the instance, of its component instance and of its
    symbol-variant item, and with one child named [position] with the
    attributes [x], [y] and [rotation], which hold the position and the
    rotation of the instance. *)
Theorem serialize_shape s w :
  checkAttributesValidity s = true ->
  exists cmp item root position,
    mComponentInstance s = Some cmp /\
    mSymbVarItem s = Some item /\
    serializeToXmlDomElement (s, w) = ((s, w), inr root) /\
    xml_name root = "symbol" /\
    xml_attributes root
    = [("uuid", attr_write (mUuid s));
       ("component_instance", attr_write (cmp_getUuid cmp));
       ("symbol_item", attr_write (item_getUuid item))] /\
    xml_children root = [position] /\
    xml_name position = "position" /\
    xml_attributes position
    = [("x", attr_write (getX (mPosition s)));
       ("y", attr_write (getY (mPosition s)));
       ("rotation", attr_write (mRotation s))] /\
    xml_children position = [].
Proof.
  intros Hvalid.
  pose proof Hvalid as (Hitem & _ & _ & Hcmp)%valid_iff.
  destruct (mComponentInstance s) as [cmp|] eqn:Ecmp; [|done].
  destruct (mSymbVarItem s) as [item|] eqn:Eitem; [|done].
  eexists cmp, item, _, _. split_and!; [done|done| |..].
  - by apply serialize_valid.
  - done.
  - done.
  - done.
  - done.
  - done.
  - done.
Qed.

(** ** Reading back what was written *)

Lemma fromXml_ok schematic domElement w uuid gcUuid cmp position x y rotation
    iu item sym :
  getAttribute domElement "uuid" = inr uuid ->
  getAttribute domElement "component_instance" = inr gcUuid ->
  getComponentInstanceByUuid schematic gcUuid = Some cmp ->
  getFirstChild domElement "position" = inr position ->
  getAttribute position "x" = inr x ->
  getAttribute position "y" = inr y ->
  getAttribute position "rotation" = inr rotation ->
  getAttribute domElement "symbol_item" = inr iu ->
  cmp_getItemByUuid cmp iu = Some item ->
  getSymbol schematic (item_getSymbolUuid item) = Some sym ->
  pins_constructible cmp item sym ->
  NoDup (pin_uuids sym) ->
  (forall pu, pu ∈ pin_uuids sym -> is_Some (item_getPinSignalMap item !! pu)) ->
  length (sym_getPins sym) = size (item_getPinSignalMap item) ->
  isNull uuid = false ->
  exists w' s',
    SI_Symbol_fromXml schematic domElement w = (w', inr s') /\
    mUuid s' = uuid /\
    mPosition s' = {| getX := x; getY := y |} /\
    mRotation s' = rotation /\
    bound schematic s' cmp item sym.
Proof.
  intros Huuid Hgc Hcmp Hpos Hx Hy Hrot Hiu Hitem Hsym Hnew Hnd Hall Hlen Hnull.
  unfold SI_Symbol_fromXml. run_method.
  rewrite Huuid. simpl. rewrite Hgc. simpl. rewrite Hcmp. simpl.
  rewrite Hpos. simpl. rewrite Hx. simpl. rewrite Hy. simpl.
  rewrite Hrot. simpl. rewrite Hiu. simpl.
  match goal with
  | |- context [init iu (?s0, w)] =>
      destruct (init_ok iu cmp item sym s0 w) as (s1 & w1 & Hinit)
  end; try done.
  { intros pu Hpu. split; [apply lookup_empty | by apply Hall]. }
  { simpl. rewrite map_size_empty. lia. }
  rewrite Hinit. exists w1, s1.
  apply (init_inr _ cmp) in Hinit as (item' & sym' & Hdone); [|done].
  pose proof Hdone as Hb. apply init_done_bound in Hb; [|reflexivity].
  destruct Hdone. simpl in *.
  assert (item' = item) as -> by congruence.
  assert (sym' = sym) as -> by congruence.
  done.
Qed.

(** C7: the element [serializeToXmlDomElement] returns for an instance
    can be read back in the same schematic, and the instance read back
    has the same identifier, position and rotation and is bound to the
    same component instance, symbol-variant item and library symbol.
    The conditions say what the same context means: the identifiers
    written resolve to the objects of the instance, each value is read
    back from its text, and pin objects can be created. *)
Theorem serialize_then_construct schematic s cmp item sym w w2 :
  instance_of schematic s ->
  mComponentInstance s = Some cmp ->
  mSymbVarItem s = Some item ->
  mSymbol s = Some sym ->
  getComponentInstanceByUuid schematic (cmp_getUuid cmp) = Some cmp ->
  cmp_getItemByUuid cmp (item_getUuid item) = Some item ->
  reads_back (mUuid s) ->
  reads_back (cmp_getUuid cmp) ->
  reads_back (item_getUuid item) ->
  reads_back (getX (mPosition s)) ->
  reads_back (getY (mPosition s)) ->
  reads_back (mRotation s) ->
  pins_constructible cmp item sym ->
  exists root w' s',
    serializeToXmlDomElement (s, w) = ((s, w), inr root) /\
    SI_Symbol_fromXml schematic root w2 = (w', inr s') /\
    mUuid s' = mUuid s /\
    mPosition s' = mPosition s /\
    mRotation s' = mRotation s /\
    mComponentInstance s' = Some cmp /\
    mSymbVarItem s' = Some item /\
    mSymbol s' = Some sym.
Proof.
  intros Hinst Hcmp Hitem Hsym Hrcmp Hritem Ru Rc Ri Rx Ry Rr Hnew.
  apply instance_bound in Hinst as (cmp' & item' & sym' & Hb).
  assert (cmp' = cmp) as ->.
  { pose proof (bound_mComponentInstance _ _ _ _ _ Hb). congruence. }
  assert (item' = item) as ->.
  { pose proof (bound_mSymbVarItem _ _ _ _ _ Hb). congruence. }
  assert (sym' = sym) as ->.
  { pose proof (bound_mSymbol _ _ _ _ _ Hb). congruence. }
  destruct (fromXml_ok schematic
              (symbol_element (mUuid s) (cmp_getUuid cmp) (item_getUuid item)
                 (mPosition s) (mRotation s))
              w2 (mUuid s) (cmp_getUuid cmp) cmp
              (XmlElem "position"
                 [("x", attr_write (getX (mPosition s)));
                  ("y", attr_write (getY (mPosition s)));
                  ("rotation", attr_write (mRotation s))] [])
              (getX (mPosition s)) (getY (mPosition s)) (mRotation s)
              (item_getUuid item) item sym)
    as (w' & s' & Hctor & Huuid & Hpos & Hrot & Hb'); try done.
  - unfold getAttribute. simpl. by rewrite Ru.
  - unfold getAttribute. simpl. by rewrite Rc.
  - unfold getAttribute. simpl. by rewrite Rx.
  - unfold getAttribute. simpl. by rewrite Ry.
  - unfold getAttribute. simpl. by rewrite Rr.
  - unfold getAttribute. simpl. by rewrite Ri.
  - apply (bound_symbol _ _ _ _ _ Hb).
  - apply (bound_nodup _ _ _ _ _ Hb).
  - apply (bound_mapped _ _ _ _ _ Hb).
  - pose proof (bound_count _ _ _ _ _ Hb).
    pose proof (bound_length _ _ _ _ _ Hb). lia.
  - apply (bound_uuid _ _ _ _ _ Hb).
  - eexists _, w', s'. split_and!.
    + apply serialize_valid; [by eapply bound_valid|done|done].
    + done.
    + done.
    + rewrite Hpos. by destruct (mPosition s).
    + done.
    + apply (bound_mComponentInstance _ _ _ _ _ Hb').
    + apply (bound_mSymbVarItem _ _ _ _ _ Hb').
    + apply (bound_mSymbol _ _ _ _ _ Hb').
Qed.
(** ** Attribute lookup *)

(** A lookup in the namespace [SYM] of a key other than [NAME] fails
    on the spot, also for an instance with null pointers. *)
Lemma getAttributeValue_SYM_other s attrKey passToParents value0 :
  attrKey <> "NAME" ->
  getAttributeValue s "SYM" attrKey passToParents value0
  = Some {| found := false; value := value0; consulted := [] |}.
Proof.
  intros Hkey. unfold getAttributeValue.
  rewrite (bool_decide_eq_false_2 (attrKey = "NAME")) by done.
  rewrite (bool_decide_eq_true_2 ("SYM" = "SYM")) by done.
  reflexivity.
Qed.

Lemma getAttributeValue_eq s cmp name attrNS attrKey passToParents value0 :
  mComponentInstance s = Some cmp ->
  getName s = Some name ->
  getAttributeValue s attrNS attrKey passToParents value0
  = Some (if (bool_decide (attrNS = "SYM") || bool_decide (attrNS = EmptyString))
             && bool_decide (attrKey = "NAME")
          then {| found := true; value := name; consulted := [] |}
          else if negb (bool_decide (attrNS = "SYM")) && passToParents
          then ask_parents cmp (mSchematic s) attrNS attrKey value0
          else {| found := false; value := value0; consulted := [] |}).
Proof.
  intros Hcmp Hname. unfold getAttributeValue, ask_parents.
  rewrite Hname, Hcmp. simpl.
  destruct (_ && bool_decide (attrKey = "NAME")); [done|].
  destruct (negb _ && passToParents); [|done].
  destruct (cmp_getAttributeValue cmp attrNS attrKey false value0) as [[] v1];
    [done|].
  by destruct (sch_getAttributeValue (mSchematic s) attrNS attrKey true v1)
    as [[] v2].
Qed.

Lemma ask_parents_consulted cmp schematic attrNS attrKey value0 :
  consulted (ask_parents cmp schematic attrNS attrKey value0) <> [].
Proof.
  unfold ask_parents.
  destruct (cmp_getAttributeValue cmp attrNS attrKey false value0) as [[] v1];
    [done|].
  by destruct (sch_getAttributeValue schematic attrNS attrKey true v1).
Qed.

(** C9, as the code has it: [getAttributeValue] answers by itself,
    returning true with the name of the instance and asking no parent,
    exactly when the namespace is [SYM] or empty and the key is [NAME];
    in the namespace [SYM] any other key gives false, leaves the output
    as it was and asks no parent, whatever [passToParents]; a parent is
    asked only in a namespace other than [SYM] with [passToParents]
    set, the component instance first and the schematic only when the
    component instance has no answer. *)
Theorem getAttributeValue_cases s name attrNS attrKey passToParents value0 :
  getName s = Some name ->
  exists r,
    getAttributeValue s attrNS attrKey passToParents value0 = Some r /\
    (found r = true /\ value r = name /\ consulted r = []
     <-> asks_for_name attrNS attrKey) /\
    (attrNS = "SYM" -> attrKey <> "NAME" ->
     r = {| found := false; value := value0; consulted := [] |}) /\
    (consulted r <> [] ->
     attrNS <> "SYM" /\ passToParents = true /\
     exists cmp, mComponentInstance s = Some cmp /\
       r = ask_parents cmp (mSchematic s) attrNS attrKey value0).
Proof.
  intros Hname.
  assert (exists cmp, mComponentInstance s = Some cmp) as [cmp Hcmp].
  { unfold getName in Hname. destruct (mComponentInstance s); [eauto|done]. }
  rewrite (getAttributeValue_eq s cmp name) by done.
  eexists. split; [reflexivity|].
  pose proof (ask_parents_consulted cmp (mSchematic s) attrNS attrKey value0)
    as Hasked.
  unfold asks_for_name.
  destruct (bool_decide (attrKey = "NAME")) eqn:Hkey;
    [apply bool_decide_eq_true in Hkey|apply bool_decide_eq_false in Hkey];
  (destruct (bool_decide (attrNS = "SYM")) eqn:Hsym;
    [apply bool_decide_eq_true in Hsym|apply bool_decide_eq_false in Hsym]);
  (destruct (bool_decide (attrNS = EmptyString)) eqn:Hempty;
    [apply bool_decide_eq_true in Hempty|apply bool_decide_eq_false in Hempty]);
  destruct passToParents; simpl; naive_solver.
Qed.
(** ** No null pointer is followed *)

Lemma inl_no_null {A B} (e : Exception) :
  inl e <> (inl NullDereference : Exc A) ->
  inl e <> (inl NullDereference : Exc B).
Proof. intros He [= ->]. by apply He. Qed.

Lemma bind_no_null {A B} (m : Method A) (k : A -> Method B) st :
  snd (m st) <> inl NullDereference ->
  (forall a st', m st = (st', inr a) -> snd (k a st') <> inl NullDereference) ->
  snd (bind m k st) <> inl NullDereference.
Proof.
  unfold bind. destruct (m st) as [st' [e|a]]; simpl.
  - intros Hm _ [= ->]. by apply Hm.
  - intros _ Hk. by apply Hk.
Qed.

Lemma foreach_no_null {A} (P : SI_Symbol -> Prop) (l : list A)
    (body : A -> Method unit) :
  (forall x s w, P s ->
     snd (body x (s, w)) <> inl NullDereference /\
     forall s' w', body x (s, w) = ((s', w'), inr tt) -> P s') ->
  forall s w, P s -> snd (foreach l body (s, w)) <> inl NullDereference.
Proof.
  intros Hbody. induction l as [|x l IH]; intros s w HP; simpl; [done|].
  destruct (Hbody x s w HP) as [Hx Hnext].
  apply bind_no_null; [done|].
  intros [] [s' w'] Hrun. apply IH. by eapply Hnext.
Qed.

Lemma init_pin_no_null item libPin s w :
  collaborators_throw ->
  mSymbVarItem s = Some item ->
  snd (init_pin libPin (s, w)) <> inl NullDereference /\
  forall s' w', init_pin libPin (s, w) = ((s', w'), inr tt) ->
    mSymbVarItem s' = Some item.
Proof.
  intros Hthrow Hitem. split.
  - pose proof (pin_new_throws Hthrow s (libpin_getUuid libPin) w) as Hnew.
    unfold init_pin. run_method.
    destruct (SI_SymbolPin_new s (libpin_getUuid libPin) w) as [w1 [e|pin]];
      simpl in *; [by eapply inl_no_null|].
    destruct (contains (mPins s) (libpin_getUuid libPin)); simpl; [done|].
    rewrite Hitem.
    by destruct (contains (item_getPinSignalMap item) (libpin_getUuid libPin)).
  - intros s' w' Hrun.
    apply (init_pin_inr _ _ _ _ _ item) in Hrun as (pin & _ & _ & _ & ->);
      done.
Qed.

Lemma init_no_null u cmp s w :
  collaborators_throw ->
  mComponentInstance s = Some cmp ->
  snd (init u (s, w)) <> inl NullDereference.
Proof.
  intros Hthrow Hcmp. unfold init. run_method. rewrite Hcmp. simpl.
  destruct (cmp_getItemByUuid cmp u) as [item|] eqn:Hitem; simpl; [|done].
  destruct (getSymbol (mSchematic s) (item_getSymbolUuid item)) as [sym|]
    eqn:Hsym; simpl; [|done].
  destruct (SGI_Symbol_new _ w) as [w1 gi]; simpl.
  match goal with
  | |- context [foreach _ _ (?s3, ?w3)] =>
      pose proof (foreach_no_null (fun s => mSymbVarItem s = Some item)
                    (sym_getPins sym) init_pin
                    (fun x s w => init_pin_no_null item x s w Hthrow)
                    s3 w3 eq_refl) as Hloop;
      destruct (foreach (sym_getPins sym) init_pin (s3, w3))
        as [[s4 w4] [e|[]]] eqn:Hrun
  end; simpl in *; [done|].
  rewrite (foreach_init_pin_frame _ _ _ _ _ _ Hrun). simpl.
  destruct (count _ =? count _)%nat; simpl; [|done].
  rewrite Hcmp. simpl.
  by destruct (checkAttributesValidity _).
Qed.

Lemma getAttribute_no_null {T} `{XmlAttribute T} e name :
  getAttribute (T:=T) e name <> inl NullDereference.
Proof.
  unfold getAttribute.
  destruct (attr_lookup name (xml_attributes e)) as [text|]; [|done].
  by destruct (attr_read text).
Qed.

Lemma getFirstChild_no_null e name :
  getFirstChild e name <> inl NullDereference.
Proof. unfold getFirstChild. by destruct (List.find _ _). Qed.

(** X1: the constructors follow no null pointer: each pointer member
    is assigned and checked before it is used, so a construction
    either returns an instance or throws one of the program's
    exceptions. *)
Lemma construct_follows_no_null schematic c w :
  collaborators_throw ->
  snd (construct_SI_Symbol schematic c w) <> inl NullDereference.
Proof.
  intros Hthrow.
  destruct c as [domElement|cmp symbolItem position rotation]; simpl.
  - unfold SI_Symbol_fromXml. run_method.
    pose proof (getAttribute_no_null (T:=Uuid) domElement "uuid").
    destruct (getAttribute (T:=Uuid) domElement "uuid") as [e|uuid]; simpl;
      [by eapply inl_no_null|].
    pose proof (getAttribute_no_null (T:=Uuid) domElement "component_instance").
    destruct (getAttribute (T:=Uuid) domElement "component_instance")
      as [e|gcUuid]; simpl; [by eapply inl_no_null|].
    destruct (getComponentInstanceByUuid schematic gcUuid) as [cmp|] eqn:Hcmp;
      simpl; [|done].
    pose proof (getFirstChild_no_null domElement "position").
    destruct (getFirstChild domElement "position") as [e|position]; simpl;
      [by eapply inl_no_null|].
    pose proof (getAttribute_no_null (T:=Length) position "x").
    destruct (getAttribute (T:=Length) position "x") as [e|x]; simpl;
      [by eapply inl_no_null|].
    pose proof (getAttribute_no_null (T:=Length) position "y").
    destruct (getAttribute (T:=Length) position "y") as [e|y]; simpl;
      [by eapply inl_no_null|].
    pose proof (getAttribute_no_null (T:=Angle) position "rotation").
    destruct (getAttribute (T:=Angle) position "rotation") as [e|rotation];
      simpl; [by eapply inl_no_null|].
    pose proof (getAttribute_no_null (T:=Uuid) domElement "symbol_item").
    destruct (getAttribute (T:=Uuid) domElement "symbol_item") as [e|iu];
      simpl; [by eapply inl_no_null|].
    match goal with
    | |- context [init ?u (?s0, w)] =>
        pose proof (init_no_null u cmp s0 w Hthrow eq_refl) as Hinit;
        destruct (init u (s0, w)) as [[s1 w1] [e|[]]]
    end; simpl in *; [by eapply inl_no_null|done].
  - unfold SI_Symbol_placed. run_method.
    destruct (createRandom w) as [w0 uuid]; simpl.
    match goal with
    | |- context [init ?u (?s0, w0)] =>
        pose proof (init_no_null u cmp s0 w0 Hthrow eq_refl) as Hinit;
        destruct (init u (s0, w0)) as [[s1 w1] [e|[]]]
    end; simpl in *; [by eapply inl_no_null|done].
Qed.

(** X2: the operations on an instance follow no null pointer: an
    instance keeps its component instance, its variant item and its
    graphics item for as long as it lives. *)
Lemma run_follows_no_null schematic op s w :
  collaborators_throw ->
  instance_of schematic s ->
  snd (run op (s, w)) <> inl NullDereference.
Proof.
  intros Hthrow Hinst.
  apply instance_bound in Hinst as (cmp & item & sym & Hb).
  pose proof (bound_mComponentInstance _ _ _ _ _ Hb) as Hcmp.
  destruct (bound_graphics _ _ _ _ _ Hb) as [gi Hgi].
  destruct op as [newPos|newRotation|scene|scene|]; simpl.
  - unfold setPosition. run_method. repeat (rewrite Hgi; simpl).
    apply (foreach_no_null (fun _ => True)); [|done].
    intros pin s1 w1 _. by split.
  - unfold setRotation. run_method. repeat (rewrite Hgi; simpl).
    apply (foreach_no_null (fun _ => True)); [|done].
    intros pin s1 w1 _. by split.
  - unfold addToSchematic. run_method. rewrite Hcmp. simpl.
    pose proof (register_throws Hthrow cmp s w) as Hreg.
    destruct (registerSymbol cmp s w) as [w1 [e|[]]]; simpl in *; [done|].
    rewrite Hgi. simpl.
    apply (foreach_no_null (fun _ => True)); [|done].
    intros pin s1 w2 _. split; [|done].
    pose proof (pin_add_throws Hthrow pin scene w2) as Hpin. simpl.
    by destruct (pin_addToSchematic pin scene w2).
  - unfold removeFromSchematic. run_method. rewrite Hcmp. simpl.
    pose proof (unregister_throws Hthrow cmp s w) as Hreg.
    destruct (unregisterSymbol cmp s w) as [w1 [e|[]]]; simpl in *; [done|].
    rewrite Hgi. simpl.
    apply (foreach_no_null (fun _ => True)); [|done].
    intros pin s1 w2 _. split; [|done].
    pose proof (pin_remove_throws Hthrow pin scene w2) as Hpin. simpl.
    by destruct (pin_removeFromSchematic pin scene w2).
  - unfold bind.
    rewrite (serialize_valid s w cmp item);
      [done|by eapply bound_valid|done|apply (bound_mSymbVarItem _ _ _ _ _ Hb)].
Qed.
(** ** More on [init] *)

(** [init] once its two lookups have succeeded. *)
Lemma init_resolved u cmp item sym s w :
  mComponentInstance s = Some cmp ->
  cmp_getItemByUuid cmp u = Some item ->
  getSymbol (mSchematic s) (item_getSymbolUuid item) = Some sym ->
  init u (s, w)
  = let s2 := set_mSymbol (Some sym) (set_mSymbVarItem (Some item) s) in
    let (w1, gi) := SGI_Symbol_new s2 w in
    let s3 := set_mGraphicsItem (Some gi) s2 in
    let w3 := sgi_setRotation gi (mRotation s) (sgi_setPos gi (mPosition s) w1) in
    match foreach (sym_getPins sym) init_pin (s3, w3) with
    | (st, inl e) => (st, inl e)
    | ((s4, w4), inr _) =>
        if (count (mPins s4) =? count (item_getPinSignalMap item))%nat then
          if checkAttributesValidity s4
          then ((s4, connect_attributesChanged cmp s4 w4), inr tt)
          else ((s4, connect_attributesChanged cmp s4 w4), inl LogicError)
        else ((s4, w4),
              inl (PinCountMismatch (count (mPins s4))
                     (count (item_getPinSignalMap item))))
    end.
Proof.
  intros Hcmp Hitem Hsym. unfold init. run_method.
  rewrite Hcmp. simpl. rewrite Hitem. simpl. rewrite Hsym. simpl.
  destruct (SGI_Symbol_new _ w) as [w1 gi]; simpl.
  match goal with
  | |- context [foreach _ _ (?s3, ?w3)] =>
      destruct (foreach (sym_getPins sym) init_pin (s3, w3))
        as [[s4 w4] [e|[]]] eqn:Hloop
  end; simpl; [done|].
  rewrite (foreach_init_pin_frame _ _ _ _ _ _ Hloop). simpl.
  destruct (count _ =? count _)%nat; simpl; [|done].
  rewrite Hcmp. simpl.
  by destruct (checkAttributesValidity _).
Qed.

Lemma foreach_app {A} (l1 l2 : list A) (body : A -> Method unit) st :
  foreach (l1 ++ l2) body st
  = match foreach l1 body st with
    | (st', inl e) => (st', inl e)
    | (st', inr _) => foreach l2 body st'
    end.
Proof.
  revert st. induction l1 as [|x l1 IH]; intros st; simpl; [done|].
  unfold bind.
  destruct (body x st) as [st1 [e|[]]]; [done|]. apply IH.
Qed.

(** The loop over a prefix of good pins: it gets through, and the pin
    map then holds exactly the prefix. *)
Lemma foreach_init_pin_prefix item pre s w :
  mSymbVarItem s = Some item ->
  mPins s = ∅ ->
  pins_constructible_for pre ->
  NoDup (libpin_getUuid <$> pre) ->
  pins_mapped item pre ->
  exists s1 w1,
    foreach pre init_pin (s, w) = ((s1, w1), inr tt) /\
    s1 = set_mPins (mPins s1) s /\
    dom (mPins s1) = list_to_set (libpin_getUuid <$> pre) /\
    size (mPins s1) = length pre.
Proof.
  intros Hitem Hempty Hnew Hnd Hmap.
  destruct (foreach_init_pin_ok item pre s w) as (s1 & w1 & Hloop); try done.
  { intros m pu w0 Hpu. by apply Hnew. }
  { intros pu Hpu. split; [by rewrite Hempty | by apply Hmap]. }
  exists s1, w1. split; [done|].
  split; [by eapply foreach_init_pin_frame|].
  eapply foreach_init_pin_inr in Hloop as (_ & _ & Hdom & Hsize); [|done].
  rewrite Hdom, Hsize, Hempty, dom_empty_L, map_size_empty.
  split; [set_solver|lia].
Qed.

(** The loop stops at the first pin that fails, with what that pin
    makes [init_pin] throw. *)
Lemma foreach_init_pin_stops item pre p post s w e :
  mSymbVarItem s = Some item ->
  mPins s = ∅ ->
  pins_constructible_for pre ->
  NoDup (libpin_getUuid <$> pre) ->
  pins_mapped item pre ->
  (forall s1 w1,
     s1 = set_mPins (mPins s1) s ->
     dom (mPins s1) = list_to_set (libpin_getUuid <$> pre) ->
     snd (init_pin p (s1, w1)) = inl e) ->
  snd (foreach (pre ++ p :: post) init_pin (s, w)) = inl e.
Proof.
  intros Hitem Hempty Hnew Hnd Hmap Hp.
  destruct (foreach_init_pin_prefix item pre s w)
    as (s1 & w1 & Hloop & Hframe & Hdom & _); try done.
  rewrite foreach_app, Hloop. simpl. unfold bind at 1.
  specialize (Hp s1 w1 Hframe Hdom).
  destruct (init_pin p (s1, w1)) as [st [e'|[]]]; simpl in *; congruence.
Qed.

(** [init] as its loop and what follows it, from the members [s3] the
    loop starts with. *)
Lemma init_from_loop u cmp item sym s w :
  mComponentInstance s = Some cmp ->
  cmp_getItemByUuid cmp u = Some item ->
  getSymbol (mSchematic s) (item_getSymbolUuid item) = Some sym ->
  exists s3 w3,
    mSymbVarItem s3 = Some item /\ mSymbol s3 = Some sym /\
    mComponentInstance s3 = Some cmp /\
    mPins s3 = mPins s /\ mUuid s3 = mUuid s /\
    is_Some (mGraphicsItem s3) /\
    init u (s, w)
    = match foreach (sym_getPins sym) init_pin (s3, w3) with
      | (st, inl e) => (st, inl e)
      | ((s4, w4), inr _) =>
          if (count (mPins s4) =? count (item_getPinSignalMap item))%nat then
            if checkAttributesValidity s4
            then ((s4, connect_attributesChanged cmp s4 w4), inr tt)
            else ((s4, connect_attributesChanged cmp s4 w4), inl LogicError)
          else ((s4, w4),
                inl (PinCountMismatch (count (mPins s4))
                       (count (item_getPinSignalMap item))))
      end.
Proof.
  intros Hcmp Hitem Hsym. rewrite (init_resolved u cmp item sym) by done.
  simpl. destruct (SGI_Symbol_new _ w) as [w1 gi].
  eexists _, _. split_and!; [..|reflexivity]; done.
Qed.

Lemma init_stops_in_loop u cmp item sym s w e :
  mComponentInstance s = Some cmp ->
  cmp_getItemByUuid cmp u = Some item ->
  getSymbol (mSchematic s) (item_getSymbolUuid item) = Some sym ->
  (forall s3 w3,
     mSymbVarItem s3 = Some item -> mPins s3 = mPins s ->
     snd (foreach (sym_getPins sym) init_pin (s3, w3)) = inl e) ->
  snd (init u (s, w)) = inl e.
Proof.
  intros Hcmp Hitem Hsym Hloop.
  destruct (init_from_loop u cmp item sym s w)
    as (s3 & w3 & H3 & _ & _ & Hpins & _ & _ & ->); try done.
  specialize (Hloop s3 w3 H3 Hpins).
  destruct (foreach (sym_getPins sym) init_pin (s3, w3)) as [[s4 w4] [e'|[]]];
    simpl in *; [done|discriminate].
Qed.

(** X3: a reference that does not resolve is reported before anything
    is created: [init] throws "symbol variant item invalid" or "no
    symbol in the library" with the identifier that failed, and neither
    the rest of the program nor the pins nor the graphics item of the
    instance have been touched. *)
Theorem init_unresolved_creates_nothing u cmp s w e :
  mComponentInstance s = Some cmp ->
  resolution_error (mSchematic s) cmp u = Some e ->
  exists s',
    init u (s, w) = ((s', w), inl e) /\
    mPins s' = mPins s /\ mGraphicsItem s' = mGraphicsItem s.
Proof.
  intros Hcmp. unfold resolution_error, init. run_method.
  rewrite Hcmp. simpl.
  destruct (cmp_getItemByUuid cmp u) as [item|]; simpl.
  - destruct (getSymbol (mSchematic s) (item_getSymbolUuid item)); simpl;
      [done|].
    intros [= <-]. by eexists.
  - intros [= <-]. by eexists.
Qed.


(** X5: the first pin of the library symbol that is no key of the
    pin-signal map makes [init] throw "not found in pin-signal-map"
    for it. *)
Theorem init_unmapped_pin u cmp item sym pre p post s w :
  mComponentInstance s = Some cmp ->
  mPins s = ∅ ->
  cmp_getItemByUuid cmp u = Some item ->
  getSymbol (mSchematic s) (item_getSymbolUuid item) = Some sym ->
  sym_getPins sym = (pre ++ p :: post)%list ->
  pins_constructible_for (pre ++ [p])%list ->
  NoDup (libpin_getUuid <$> (pre ++ [p])%list) ->
  pins_mapped item pre ->
  item_getPinSignalMap item !! libpin_getUuid p = None ->
  snd (init u (s, w)) = inl (PinNotInSignalMap (libpin_getUuid p)).
Proof.
  intros Hcmp Hempty Hitem Hsym Hpins Hnew Hnd Hmap Hnone.
  rewrite fmap_app in Hnd. apply NoDup_app in Hnd as (Hnd & Hfresh & _).
  apply (init_stops_in_loop u cmp item sym); try done.
  intros s3 w3 H3 Hpins3. rewrite Hpins.
  apply (foreach_init_pin_stops item); try done.
  { congruence. }
  { intros st pu w0 Hpu. apply Hnew. rewrite fmap_app. set_solver. }
  intros s1 w1 Hframe Hdom.
  destruct (Hnew s1 (libpin_getUuid p) w1) as (w2 & pin & Hpin).
  { rewrite fmap_app. set_solver. }
  unfold init_pin. run_method. rewrite Hpin. simpl.
  assert (contains (mPins s1) (libpin_getUuid p) = false) as ->.
  { apply contains_false, not_elem_of_dom. rewrite Hdom.
    intros Hin%elem_of_list_to_set. apply (Hfresh _ Hin). set_solver. }
  simpl. rewrite Hframe. simpl. rewrite H3.
  apply contains_false in Hnone. by rewrite Hnone.
Qed.


Lemma init_after_loop u cmp item sym s w :
  mComponentInstance s = Some cmp ->
  mPins s = ∅ ->
  cmp_getItemByUuid cmp u = Some item ->
  getSymbol (mSchematic s) (item_getSymbolUuid item) = Some sym ->
  pins_constructible_for (sym_getPins sym) ->
  NoDup (pin_uuids sym) ->
  pins_mapped item (sym_getPins sym) ->
  exists s4 w4,
    mSymbVarItem s4 = Some item /\ mSymbol s4 = Some sym /\
    mComponentInstance s4 = Some cmp /\ mUuid s4 = mUuid s /\
    is_Some (mGraphicsItem s4) /\
    size (mPins s4) = length (sym_getPins sym) /\
    init u (s, w)
    = if (length (sym_getPins sym) =? size (item_getPinSignalMap item))%nat then
        if checkAttributesValidity s4
        then ((s4, connect_attributesChanged cmp s4 w4), inr tt)
        else ((s4, connect_attributesChanged cmp s4 w4), inl LogicError)
      else ((s4, w4),
            inl (PinCountMismatch (length (sym_getPins sym))
                   (size (item_getPinSignalMap item)))).
Proof.
  intros Hcmp Hempty Hitem Hsym Hnew Hnd Hmap.
  destruct (init_from_loop u cmp item sym s w)
    as (s3 & w3 & H3 & Hsym3 & Hcmp3 & Hpins & Huuid & Hgi & ->); try done.
  destruct (foreach_init_pin_prefix item (sym_getPins sym) s3 w3)
    as (s4 & w4 & Hloop & Hframe & _ & Hsize); try done.
  { congruence. }
  rewrite Hloop. unfold count. rewrite Hsize.
  exists s4, w4. rewrite Hframe. simpl. split_and!; try done.
Qed.

(** X7: when the pins of the library symbol are pairwise different and
    all keys of the pin-signal map, but the map has another number of
    entries, [init] throws "pin count does not match", reporting the
    number of pins of the symbol and the number of entries of the
    map. *)
Theorem init_pin_count_mismatch u cmp item sym s w :
  mComponentInstance s = Some cmp ->
  mPins s = ∅ ->
  cmp_getItemByUuid cmp u = Some item ->
  getSymbol (mSchematic s) (item_getSymbolUuid item) = Some sym ->
  pins_constructible_for (sym_getPins sym) ->
  NoDup (pin_uuids sym) ->
  pins_mapped item (sym_getPins sym) ->
  length (sym_getPins sym) <> size (item_getPinSignalMap item) ->
  snd (init u (s, w))
  = inl (PinCountMismatch (length (sym_getPins sym))
           (size (item_getPinSignalMap item))).
Proof.
  intros Hcmp Hempty Hitem Hsym Hnew Hnd Hmap Hne.
  destruct (init_after_loop u cmp item sym s w)
    as (s4 & w4 & _ & _ & _ & _ & _ & _ & ->); try done.
  apply Nat.eqb_neq in Hne. by rewrite Hne.
Qed.

(** X8: the identifier of the instance is looked at last.  With the
    null identifier and everything else in order, [init] throws a
    [LogicError], and only after the graphics item and all pins have
    been created. *)
Theorem init_null_uuid u cmp item sym s w :
  mComponentInstance s = Some cmp ->
  mPins s = ∅ ->
  cmp_getItemByUuid cmp u = Some item ->
  getSymbol (mSchematic s) (item_getSymbolUuid item) = Some sym ->
  pins_constructible_for (sym_getPins sym) ->
  NoDup (pin_uuids sym) ->
  pins_mapped item (sym_getPins sym) ->
  length (sym_getPins sym) = size (item_getPinSignalMap item) ->
  isNull (mUuid s) = true ->
  exists s4 w4,
    init u (s, w) = ((s4, w4), inl LogicError) /\
    is_Some (mGraphicsItem s4) /\
    size (mPins s4) = length (sym_getPins sym).
Proof.
  intros Hcmp Hempty Hitem Hsym Hnew Hnd Hmap Hlen Hnull.
  destruct (init_after_loop u cmp item sym s w)
    as (s4 & w4 & H4 & Hsym4 & Hcmp4 & Huuid & Hgi & Hsize & ->); try done.
  rewrite Hlen, Nat.eqb_refl.
  assert (checkAttributesValidity s4 = false) as ->.
  { unfold checkAttributesValidity. by rewrite H4, Hsym4, Huuid, Hnull. }
  eexists _, _. split; [reflexivity|]. split; [done|congruence].
Qed.

(** X9: with its two lookups resolved and pin objects that can be
    created, [init] returns exactly when the pins of the library symbol
    are pairwise different, all are keys of the pin-signal map, there
    are as many pins as entries of the map, and the identifier of the
    instance is not null. *)
Theorem init_returns_iff u cmp item sym s w :
  mComponentInstance s = Some cmp ->
  mPins s = ∅ ->
  cmp_getItemByUuid cmp u = Some item ->
  getSymbol (mSchematic s) (item_getSymbolUuid item) = Some sym ->
  pins_constructible cmp item sym ->
  (exists st, init u (s, w) = (st, inr tt)) <->
  NoDup (pin_uuids sym) /\
  pins_mapped item (sym_getPins sym) /\
  length (sym_getPins sym) = size (item_getPinSignalMap item) /\
  isNull (mUuid s) = false.
Proof.
  intros Hcmp Hempty Hitem Hsym Hnew. split.
  - intros [[s' w'] Hinit].
    apply (init_inr _ cmp) in Hinit as (item' & sym' & Hdone); [|done].
    destruct Hdone. rewrite Hempty, map_size_empty in done_length0.
    assert (item' = item) as -> by congruence.
    assert (sym' = sym) as -> by congruence.
    split_and!; [done|done|lia|done].
  - intros (Hnd & Hmap & Hlen & Hnull).
    destruct (init_ok u cmp item sym s w) as (s' & w' & Hinit); try done.
    + intros pu Hpu. split; [by rewrite Hempty | by apply Hmap].
    + rewrite Hempty, map_size_empty. lia.
    + by exists (s', w').
Qed.

(** ** More on the operations *)

Lemma run_leaves op s w :
  fst (fst (run op (s, w))) = members_after op s.
Proof.
  destruct op as [newPos|newRotation|scene|scene|]; simpl.
  - apply setPosition_this.
  - apply setRotation_this.
  - apply addToSchematic_preserves.
  - apply removeFromSchematic_preserves.
  - apply (preserves_bind serializeToXmlDomElement (fun _ => ret tt)).
    + apply serializeToXmlDomElement_preserves.
    + intros _. apply preserves_ret.
Qed.

(** X10: whatever an operation does to the rest of the program, and
    whether it returns or throws, the only members it changes are
    [mPosition] (by [setPosition]) and [mRotation] (by [setRotation]),
    and these are assigned before anything can fail. *)
Theorem run_members op s w :
  fst (fst (run op (s, w))) = members_after op s.
Proof.
  destruct op as [newPos|newRotation|scene|scene|]; simpl.
  - unfold setPosition. apply after_assign. auto 20 with method.
  - unfold setRotation. apply after_assign. auto 20 with method.
  - apply addToSchematic_preserves.
  - apply removeFromSchematic_preserves.
  - apply (preserves_bind serializeToXmlDomElement (fun _ => ret tt)).
    + apply serializeToXmlDomElement_preserves.
    + intros _. apply preserves_ret.
Qed.

(** X11: when the component instance refuses to register the symbol,
    [addToSchematic] throws what [registerSymbol] threw and has done
    nothing else: the graphics item is not added to the scene and no
    pin is added. *)
Theorem addToSchematic_register_throws scene cmp s w w1 e :
  mComponentInstance s = Some cmp ->
  registerSymbol cmp s w = (w1, inl e) ->
  addToSchematic scene (s, w) = ((s, w1), inl e).
Proof.
  intros Hcmp Hreg. unfold addToSchematic. run_method.
  rewrite Hcmp. simpl. by rewrite Hreg.
Qed.

(** X12: when the component instance refuses to unregister the symbol,
    [removeFromSchematic] throws what [unregisterSymbol] threw and has
    done nothing else: the graphics item stays in the scene and no pin
    is removed. *)
Theorem removeFromSchematic_unregister_throws scene cmp s w w1 e :
  mComponentInstance s = Some cmp ->
  unregisterSymbol cmp s w = (w1, inl e) ->
  removeFromSchematic scene (s, w) = ((s, w1), inl e).
Proof.
  intros Hcmp Hreg. unfold removeFromSchematic. run_method.
  rewrite Hcmp. simpl. by rewrite Hreg.
Qed.

(** X13: what is serialised after an operation: the three identifiers
    of before, and the position and rotation the operation left, so
    the coordinates last given to [setPosition] and the angle last
    given to [setRotation]. *)
Theorem serialize_after_run op s w cmp item :
  checkAttributesValidity s = true ->
  mComponentInstance s = Some cmp ->
  mSymbVarItem s = Some item ->
  snd (serializeToXmlDomElement (fst (run op (s, w))))
  = inr (symbol_element (mUuid s) (cmp_getUuid cmp) (item_getUuid item)
           (mPosition (members_after op s)) (mRotation (members_after op s))).
Proof.
  intros Hvalid Hcmp Hitem.
  pose proof (run_leaves op s w) as Hmembers.
  destruct (run op (s, w)) as [[s' w'] r]. simpl in Hmembers. simpl. subst s'.
  rewrite (serialize_valid _ w' cmp item).
  - by destruct op.
  - by destruct op.
  - by destruct op.
  - by destruct op.
Qed.

(** X14: an instance can always be serialised: [serializeToXmlDomElement]
    never throws on what a constructor returned, also after any
    sequence of operations, and leaves the instance and the rest of
    the program as they are. *)
Theorem instance_serializes schematic s w :
  instance_of schematic s ->
  exists root, serializeToXmlDomElement (s, w) = ((s, w), inr root).
Proof.
  intros Hinst. apply instance_bound in Hinst as (cmp & item & sym & Hb).
  eexists. apply (serialize_valid s w cmp item).
  - by eapply bound_valid.
  - apply (bound_mComponentInstance _ _ _ _ _ Hb).
  - apply (bound_mSymbVarItem _ _ _ _ _ Hb).
Qed.

(** X15: an instance always has a name, the name of its component
    instance followed by the suffix of its variant item, and no
    operation changes it. *)
Theorem instance_name schematic s :
  instance_of schematic s ->
  exists cmp item,
    mComponentInstance s = Some cmp /\ mSymbVarItem s = Some item /\
    getName s = Some (cmp_getName cmp +:+ item_getSuffix item) /\
    forall op w, getName (fst (fst (run op (s, w)))) = getName s.
Proof.
  intros Hinst. apply instance_bound in Hinst as (cmp & item & sym & Hb).
  pose proof (bound_mComponentInstance _ _ _ _ _ Hb) as Hcmp.
  pose proof (bound_mSymbVarItem _ _ _ _ _ Hb) as Hitem.
  exists cmp, item. split_and!; try done.
  - unfold getName. by rewrite Hcmp, Hitem.
  - intros op w. rewrite run_leaves. by destruct op.
Qed.

(** X16: without [passToParents] a lookup is answered on the spot and
    no parent is asked: it succeeds only for the name, and otherwise
    returns false and leaves the output parameter as it was. *)
Theorem getAttributeValue_not_passed s name attrNS attrKey value0 :
  getName s = Some name ->
  getAttributeValue s attrNS attrKey false value0
  = Some (if (bool_decide (attrNS = "SYM") || bool_decide (attrNS = EmptyString))
             && bool_decide (attrKey = "NAME")
          then {| found := true; value := name; consulted := [] |}
          else {| found := false; value := value0; consulted := [] |}).
Proof.
  intros Hname.
  assert (exists cmp, mComponentInstance s = Some cmp) as [cmp Hcmp].
  { unfold getName in Hname. destruct (mComponentInstance s); [eauto|done]. }
  rewrite (getAttributeValue_eq s cmp name) by done.
  by rewrite andb_false_r.
Qed.

(** ** More on the constructors *)

(** X17: a saved element that names a component instance the circuit
    does not have is rejected with "no component found", before
    anything is created: the rest of the program is untouched. *)
Theorem fromXml_no_component schematic domElement (uuid gcUuid : Uuid) w :
  getAttribute domElement "uuid" = inr uuid ->
  getAttribute domElement "component_instance" = inr gcUuid ->
  getComponentInstanceByUuid schematic gcUuid = None ->
  SI_Symbol_fromXml schematic domElement w
  = (w, inl (NoComponentInCircuit gcUuid)).
Proof.
  intros Huuid Hgc Hnone. unfold SI_Symbol_fromXml. run_method.
  rewrite Huuid. simpl. rewrite Hgc. simpl. by rewrite Hnone.
Qed.

(** X18: saving what was loaded writes what was read.  When the
    lookups of the schematic hand out objects under their own
    identifiers, the element serialised for an instance read from a
    saved element carries the identifiers, the coordinates and the
    angle that were read from that element. *)
Theorem serialize_after_fromXml schematic domElement w w' s w2 :
  lookups_by_own_uuid schematic ->
  SI_Symbol_fromXml schematic domElement w = (w', inr s) ->
  exists (uuid gcUuid iu : Uuid) position (x y : Length) (rotation : Angle),
    getAttribute domElement "uuid" = inr uuid /\
    getAttribute domElement "component_instance" = inr gcUuid /\
    getAttribute domElement "symbol_item" = inr iu /\
    getFirstChild domElement "position" = inr position /\
    getAttribute position "x" = inr x /\
    getAttribute position "y" = inr y /\
    getAttribute position "rotation" = inr rotation /\
    serializeToXmlDomElement (s, w2)
    = ((s, w2),
       inr (symbol_element uuid gcUuid iu {| getX := x; getY := y |} rotation)).
Proof.
  intros Hown Hctor.
  apply fromXml_inr in Hctor
    as (gc & pos & iu & cmp & item & sym & Huuid & Hgc & Hcmp & Hpos & Hx & Hy
        & Hrot & Hiu & Hitem & Hb).
  destruct (Hown gc cmp Hcmp) as [Hcu Hitems].
  specialize (Hitems iu item Hitem).
  exists (mUuid s), gc, iu, pos, (getX (mPosition s)), (getY (mPosition s)),
    (mRotation s).
  split_and!; try done.
  rewrite (serialize_valid s w2 cmp item).
  - rewrite Hcu, Hitems. by destruct (mPosition s).
  - by eapply bound_valid.
  - apply (bound_mComponentInstance _ _ _ _ _ Hb).
  - apply (bound_mSymbVarItem _ _ _ _ _ Hb).
Qed.

(** X19: a placed instance is what the caller asked for: it belongs to
    the given schematic and component instance, stands at the given
    position with the given rotation, uses the variant item the
    component instance has under the given identifier and the library
    symbol that item names, and has a graphics item. *)
Theorem placed_members schematic cmp symbolItem position rotation w w' s :
  SI_Symbol_placed schematic cmp symbolItem position rotation w = (w', inr s) ->
  mSchematic s = schematic /\
  mComponentInstance s = Some cmp /\
  mPosition s = position /\
  mRotation s = rotation /\
  is_Some (mGraphicsItem s) /\
  exists item,
    cmp_getItemByUuid cmp symbolItem = Some item /\
    mSymbVarItem s = Some item /\
    mSymbol s = getSymbol schematic (item_getSymbolUuid item).
Proof.
  intros Hctor.
  apply placed_inr in Hctor as (item & sym & _ & Hpos & Hrot & Hitem & Hb).
  split_and!; try done.
  - apply (bound_mSchematic _ _ _ _ _ Hb).
  - apply (bound_mComponentInstance _ _ _ _ _ Hb).
  - apply (bound_graphics _ _ _ _ _ Hb).
  - exists item. split_and!; [done|apply (bound_mSymbVarItem _ _ _ _ _ Hb)|].
    rewrite (bound_mSymbol _ _ _ _ _ Hb). symmetry.
    apply (bound_symbol _ _ _ _ _ Hb).
Qed.

End Properties.

(** * The class on the small project *)

Section DemoFacts.
#[local] Existing Instance demo_foundation.
#[local] Existing Instance demo_handles.
#[local] Existing Instance demo_collaborators.

Example demo_fromXml :
  SI_Symbol_fromXml demo_schematic (demo_element "symbol-1" "cmp-1" "item-1")
    demo_world
  = ({| next_handle := 3; registered := [] |}, inr demo_instance).
Proof. vm_compute. reflexivity. Qed.
Example demo_placement :
  SI_Symbol_placed demo_schematic demo_component "item-1" demo_position 0%Z
    demo_world
  = ({| next_handle := 4; registered := [] |}, inr demo_placed).
Proof. vm_compute. reflexivity. Qed.

(** The exceptions of the source, each on an input that triggers it. *)
Example demo_no_component :
  snd (SI_Symbol_fromXml demo_schematic
         (demo_element "symbol-1" "cmp-9" "item-1") demo_world)
  = inl (NoComponentInCircuit "cmp-9").
Proof. vm_compute. reflexivity. Qed.

Example demo_invalid_item :
  snd (SI_Symbol_fromXml demo_schematic
         (demo_element "symbol-1" "cmp-1" "item-9") demo_world)
  = inl (InvalidSymbVarItem "item-9").
Proof. vm_compute. reflexivity. Qed.

Example demo_no_symbol :
  snd (SI_Symbol_fromXml demo_schematic
         (demo_element "symbol-1" "cmp-1" "item-2") demo_world)
  = inl (NoSymbolInLibrary "sym-missing").
Proof. vm_compute. reflexivity. Qed.

Example demo_pin_not_mapped :
  snd (SI_Symbol_fromXml demo_schematic
         (demo_element "symbol-1" "cmp-1" "item-3") demo_world)
  = inl (PinNotInSignalMap "pin-2").
Proof. vm_compute. reflexivity. Qed.

Example demo_null_uuid :
  snd (SI_Symbol_fromXml demo_schematic
         (demo_element EmptyString "cmp-1" "item-1") demo_world)
  = inl (FileParseError "uuid").
Proof. vm_compute. reflexivity. Qed.

Example demo_mapToScene :
  mapToScene demo_instance {| getX := 10%Z; getY := 0%Z |}
  = {| getX := 2540000%Z; getY := (-5079990)%Z |}.
Proof. vm_compute. reflexivity. Qed.

Example demo_serialize :
  snd (serializeToXmlDomElement (demo_instance, demo_world))
  = inr (demo_element "symbol-1" "cmp-1" "item-1").
Proof. vm_compute. reflexivity. Qed.

(** Adding an instance to the schematic twice throws the second time;
    the instance is still there and can be moved. *)
Example demo_add_twice :
  run (OpAddToSchematic demo_scene) (demo_instance, demo_registered)
  = ((demo_instance, demo_registered),
     inl demo_registered_already).
Proof. vm_compute. reflexivity. Qed.

(** A placement takes the component instance it is given; the circuit
    is not asked for it. *)
Example demo_placement_stray :
  getComponentInstanceByUuid demo_schematic (cmp_getUuid demo_component_stray)
  = None /\
  snd (SI_Symbol_placed demo_schematic demo_component_stray "item-1"
         demo_position 0%Z demo_world)
  = inr (set_mComponentInstance (Some demo_component_stray) demo_placed).
Proof. split; vm_compute; reflexivity. Qed.

(** The conversions of the small project read back what they write. *)
Lemma demo_reads_back_Z (z : Z) : Z_of_decimal (decimal_of_Z z) = Some z.
Proof.
  unfold Z_of_decimal, decimal_of_Z. rewrite NilZero.isi.
  - simpl. f_equal. apply DecimalZ.of_to.
  - destruct z; simpl; try discriminate.
    intros [= Hp]. by apply Unsigned.to_uint_nonnil in Hp.
  - destruct z; simpl; try discriminate.
    intros [= Hp]. by apply Unsigned.to_uint_nonnil in Hp.
Qed.

Lemma demo_reads_back_length (x : Length) : reads_back x.
Proof. apply demo_reads_back_Z. Qed.

Lemma demo_reads_back_angle (a : Angle) : reads_back a.
Proof. apply demo_reads_back_Z. Qed.

Lemma demo_reads_back_uuid (u : Uuid) : isNull u = false -> reads_back u.
Proof. unfold reads_back. simpl. intros ->. reflexivity. Qed.

Lemma demo_instance_of : instance_of demo_schematic demo_instance.
Proof.
  apply (inst_fromXml demo_schematic
           (demo_element "symbol-1" "cmp-1" "item-1") demo_world
           {| next_handle := 3; registered := [] |} demo_instance).
  vm_compute. reflexivity.
Defined.

Lemma demo_moved_instance_of :
  instance_of demo_schematic (set_mPosition demo_position demo_instance).
Proof.
  apply (inst_run demo_schematic (OpSetPosition demo_position)
           demo_instance demo_registered
           (set_mPosition demo_position demo_instance) demo_registered (inr tt)).
  - apply (inst_run demo_schematic (OpAddToSchematic demo_scene)
             demo_instance demo_registered demo_instance demo_registered
             (inl demo_registered_already)).
    + exact demo_instance_of.
    + vm_compute. reflexivity.
  - vm_compute. reflexivity.
Defined.

Lemma demo_pins_constructible :
  pins_constructible demo_component demo_item demo_symbol.
Proof.
  intros st pu w _ _ _ _. simpl.
  exists (fst (demo_allocate w)), (snd (demo_allocate w)). reflexivity.
Defined.

Lemma pins_match_pin_signal_map_witness :
  instance_of demo_schematic (set_mPosition demo_position demo_instance) /\
  exists item sym,
    mSymbVarItem (set_mPosition demo_position demo_instance) = Some item /\
    mSymbol (set_mPosition demo_position demo_instance) = Some sym /\
    dom (mPins (set_mPosition demo_position demo_instance))
    = dom (item_getPinSignalMap item) /\
    size (mPins (set_mPosition demo_position demo_instance))
    = size (item_getPinSignalMap item) /\
    dom (mPins (set_mPosition demo_position demo_instance))
    = list_to_set (pin_uuids sym) /\
    NoDup (pin_uuids sym).
Proof.
  split.
  - exact demo_moved_instance_of.
  - apply (pins_match_pin_signal_map demo_schematic
             (set_mPosition demo_position demo_instance)
             demo_moved_instance_of).
Defined.

Lemma construction_throws_when_unresolved_witness :
  unresolved demo_schematic
    (FromXml (demo_element "symbol-1" "cmp-1" "item-2")) /\
  is_thrown (snd (construct_SI_Symbol demo_schematic
                    (FromXml (demo_element "symbol-1" "cmp-1" "item-2"))
                    demo_world)).
Proof.
  assert (Hun : unresolved demo_schematic
                  (FromXml (demo_element "symbol-1" "cmp-1" "item-2"))).
  { right. right. exists demo_component, "item-2", demo_item_lost.
    split; [exists "cmp-1"; split; vm_compute; reflexivity|].
    split; [vm_compute; reflexivity|].
    split; vm_compute; reflexivity. }
  split; [exact Hun|].
  apply (construction_throws_when_unresolved demo_schematic _ demo_world Hun).
Defined.

Lemma construction_throws_on_pin_mismatch_witness :
  resolves_to demo_schematic (Placed demo_component "item-3" demo_position 0%Z)
    demo_component demo_item_short demo_symbol /\
  pins_mismatch demo_item_short demo_symbol /\
  is_thrown (snd (construct_SI_Symbol demo_schematic
                    (Placed demo_component "item-3" demo_position 0%Z)
                    demo_world)).
Proof.
  assert (Hres : resolves_to demo_schematic
                   (Placed demo_component "item-3" demo_position 0%Z)
                   demo_component demo_item_short demo_symbol).
  { split; [reflexivity|]. exists "item-3".
    split; [reflexivity|]. split; vm_compute; reflexivity. }
  assert (Hmis : pins_mismatch demo_item_short demo_symbol).
  { left. exists "pin-2". split.
    - apply list_elem_of_In. simpl. auto.
    - vm_compute. reflexivity. }
  split; [exact Hres|]. split; [exact Hmis|].
  apply (construction_throws_on_pin_mismatch demo_schematic _ demo_world
           demo_component demo_item_short demo_symbol Hres Hmis).
Defined.

(** C4, as the specification words it, fails: an instance whose four
    references are bound but whose identifier is null is not valid. *)
Lemma validity_is_not_four_references :
  ~ (checkAttributesValidity demo_instance_null_uuid = true <->
     core_references_non_null demo_instance_null_uuid = true).
Proof.
  intros [_ Hvalid].
  assert (Hfalse : checkAttributesValidity demo_instance_null_uuid = false)
    by (vm_compute; reflexivity).
  rewrite Hvalid in Hfalse; [discriminate|]. vm_compute. reflexivity.
Qed.

Lemma checkAttributesValidity_iff_witness :
  checkAttributesValidity demo_instance = true /\
  serializeToXmlDomElement (demo_instance_null_uuid, demo_world)
  = ((demo_instance_null_uuid, demo_world), inl LogicError).
Proof.
  split.
  - apply (checkAttributesValidity_iff demo_instance).
    vm_compute. repeat split; discriminate.
  - apply (checkAttributesValidity_iff demo_instance_null_uuid).
    vm_compute. reflexivity.
Defined.

Lemma serialize_shape_witness :
  checkAttributesValidity demo_instance = true /\
  exists root,
    serializeToXmlDomElement (demo_instance, demo_world)
    = ((demo_instance, demo_world), inr root) /\
    xml_name root = "symbol" /\
    (xml_attributes root).*1 = ["uuid"; "component_instance"; "symbol_item"].
Proof.
  assert (Hvalid : checkAttributesValidity demo_instance = true)
    by (vm_compute; reflexivity).
  split; [exact Hvalid|].
  destruct (serialize_shape demo_instance demo_world Hvalid)
    as (cmp & item & root & position & _ & _ & Hser & Hname & Hattrs & _).
  exists root. split; [exact Hser|]. split; [exact Hname|].
  rewrite Hattrs. reflexivity.
Defined.

Lemma constructed_uuid_witness :
  construct_SI_Symbol demo_schematic
    (Placed demo_component "item-1" demo_position 0%Z) demo_world
  = ({| next_handle := 4; registered := [] |}, inr demo_placed) /\
  assigned_uuid (Placed demo_component "item-1" demo_position 0%Z) demo_world
  = inr (mUuid demo_placed).
Proof.
  assert (Hctor : construct_SI_Symbol demo_schematic
                    (Placed demo_component "item-1" demo_position 0%Z)
                    demo_world
                  = ({| next_handle := 4; registered := [] |}, inr demo_placed))
    by (vm_compute; reflexivity).
  split; [exact Hctor|].
  apply (constructed_uuid demo_schematic _ demo_world _ demo_placed Hctor).
Defined.

Lemma serialize_then_construct_witness :
  exists root w' s',
    serializeToXmlDomElement
      (set_mPosition demo_position demo_instance, demo_registered)
    = ((set_mPosition demo_position demo_instance, demo_registered), inr root) /\
    SI_Symbol_fromXml demo_schematic root demo_world = (w', inr s') /\
    mUuid s' = "symbol-1" /\
    mPosition s' = demo_position /\
    mRotation s' = 90000000%Z /\
    mComponentInstance s' = Some demo_component /\
    mSymbVarItem s' = Some demo_item /\
    mSymbol s' = Some demo_symbol.
Proof.
  apply (serialize_then_construct demo_schematic
           (set_mPosition demo_position demo_instance)
           demo_component demo_item demo_symbol demo_registered demo_world).
  - exact demo_moved_instance_of.
  - reflexivity.
  - reflexivity.
  - reflexivity.
  - vm_compute. reflexivity.
  - vm_compute. reflexivity.
  - vm_compute. reflexivity.
  - vm_compute. reflexivity.
  - vm_compute. reflexivity.
  - vm_compute. reflexivity.
  - vm_compute. reflexivity.
  - vm_compute. reflexivity.
  - exact demo_pins_constructible.
Defined.

Example demo_fromXml_plain :
  snd (SI_Symbol_fromXml demo_schematic
         (demo_element "symbol-1" "cmp-1" "item-4") demo_world)
  = inr demo_instance_plain.
Proof. vm_compute. reflexivity. Qed.

(** C9, as the specification words it, fails: asked for [NAME] in the
    namespace [CMP], the component instance answers with its name,
    which is the name of a symbol whose variant item has no suffix. *)
Lemma parent_answers_with_the_name :
  exists r,
    getAttributeValue demo_instance_plain "CMP" "NAME" true "old" = Some r /\
    ~ (found r = true /\ Some (value r) = getName demo_instance_plain
       <-> asks_for_name "CMP" "NAME").
Proof.
  exists {| found := true; value := "R1"; consulted := [ParentComponent] |}.
  split; [reflexivity|].
  intros [Hname _].
  destruct Hname as [[Hns|Hns] _]; [by split|discriminate|discriminate].
Qed.

Lemma getAttributeValue_cases_witness :
  getName demo_instance = Some "R1A" /\
  exists r,
    getAttributeValue demo_instance "SYM" "VALUE" true "old" = Some r /\
    r = {| found := false; value := "old"; consulted := [] |}.
Proof.
  assert (Hname : getName demo_instance = Some "R1A") by reflexivity.
  split; [exact Hname|].
  destruct (getAttributeValue_cases demo_instance "R1A" "SYM" "VALUE" true "old"
              Hname) as (r & Hr & _ & Hsym & _).
  exists r. split; [exact Hr|]. apply Hsym; [reflexivity|discriminate].
Defined.

Example demo_attribute_name :
  getAttributeValue demo_instance EmptyString "NAME" true "old"
  = Some {| found := true; value := "R1A"; consulted := [] |}.
Proof. reflexivity. Qed.

Example demo_attribute_component :
  getAttributeValue demo_instance "CMP" "VALUE" true "old"
  = Some {| found := true; value := "10k"; consulted := [ParentComponent] |}.
Proof. reflexivity. Qed.

Example demo_attribute_schematic :
  getAttributeValue demo_instance EmptyString "SHEET" true "old"
  = Some {| found := true; value := "Main";
            consulted := [ParentComponent; ParentSchematic] |}.
Proof. reflexivity. Qed.

Example demo_attribute_not_passed :
  getAttributeValue demo_instance "CMP" "VALUE" false "old"
  = Some {| found := false; value := "old"; consulted := [] |}.
Proof. reflexivity. Qed.
(** ** Witnesses of the further properties *)

Ltac decide_it := apply (bool_decide_unpack _); vm_compute; exact I.

Lemma demo_collaborators_throw : collaborators_throw.
Proof.
  split.
  - intros st pu w. simpl. discriminate.
  - intros pin scene w. simpl. discriminate.
  - intros pin scene w. simpl. discriminate.
  - intros cmp st w. simpl. unfold demo_register.
    destruct (bool_decide _); simpl; discriminate.
  - intros cmp st w. simpl. unfold demo_unregister.
    destruct (bool_decide _); simpl; discriminate.
Defined.

Lemma demo_pins_constructible_for pins : pins_constructible_for pins.
Proof.
  intros st pu w _. simpl.
  exists (fst (demo_allocate w)), (snd (demo_allocate w)). reflexivity.
Defined.

Lemma demo_lookups_by_own_uuid : lookups_by_own_uuid demo_schematic.
Proof.
  intros gc cmp. simpl.
  case_bool_decide as Hgc; [|by intros [=]].
  intros [= <-]. split; [done|].
  intros iu item. simpl.
  repeat case_bool_decide; intros [= <-]; by subst iu.
Defined.

Lemma construct_follows_no_null_witness :
  collaborators_throw /\
  snd (construct_SI_Symbol demo_schematic
         (FromXml (demo_element "symbol-1" "cmp-1" "item-3")) demo_world)
  <> inl NullDereference.
Proof.
  split; [exact demo_collaborators_throw|].
  apply (construct_follows_no_null demo_schematic _ demo_world
           demo_collaborators_throw).
Defined.

Lemma run_follows_no_null_witness :
  collaborators_throw /\
  instance_of demo_schematic demo_instance /\
  snd (run (OpRemoveFromSchematic demo_scene) (demo_instance, demo_world))
  <> inl NullDereference.
Proof.
  split; [exact demo_collaborators_throw|].
  split; [exact demo_instance_of|].
  apply (run_follows_no_null demo_schematic _ demo_instance demo_world
           demo_collaborators_throw demo_instance_of).
Defined.

Lemma init_unresolved_creates_nothing_witness :
  exists s',
    init "item-2" (demo_before_init, demo_world)
    = ((s', demo_world), inl (@NoSymbolInLibrary demo_foundation "sym-missing")) /\
    mPins s' = ∅ /\ mGraphicsItem s' = None.
Proof.
  apply (init_unresolved_creates_nothing (H:=demo_foundation) (H0:=demo_handles)
           "item-2" demo_component demo_before_init demo_world _).
  - reflexivity.
  - vm_compute. reflexivity.
Defined.


Lemma init_unmapped_pin_witness :
  snd (init "item-3" (demo_before_init, demo_world))
  = inl (@PinNotInSignalMap demo_foundation "pin-2").
Proof.
  apply (init_unmapped_pin (H:=demo_foundation) (H0:=demo_handles)
           "item-3" demo_component demo_item_short demo_symbol
           [demo_pin1]
           demo_pin2 []).
  - reflexivity.
  - reflexivity.
  - vm_compute. reflexivity.
  - vm_compute. reflexivity.
  - reflexivity.
  - apply demo_pins_constructible_for.
  - decide_it.
  - intros pu Hpu. revert pu Hpu. apply Forall_forall. decide_it.
  - vm_compute. reflexivity.
Defined.


Lemma init_pin_count_mismatch_witness :
  snd (init "item-1"
         (demo_before_init_of demo_symbol_single demo_item "random-0",
          demo_world))
  = inl (@PinCountMismatch demo_foundation 1 2).
Proof.
  apply (init_pin_count_mismatch (H:=demo_foundation) (H0:=demo_handles)
           "item-1" (demo_component_of demo_item)
           demo_item demo_symbol_single).
  - reflexivity.
  - reflexivity.
  - vm_compute. reflexivity.
  - reflexivity.
  - apply demo_pins_constructible_for.
  - decide_it.
  - intros pu Hpu. revert pu Hpu. apply Forall_forall. decide_it.
  - vm_compute. discriminate.
Defined.

Lemma init_null_uuid_witness :
  exists s4 w4,
    init "item-1"
      (demo_before_init_of demo_symbol demo_item EmptyString, demo_world)
    = ((s4, w4), inl LogicError) /\
    is_Some (mGraphicsItem s4) /\
    size (mPins s4) = 2.
Proof.
  apply (init_null_uuid (H:=demo_foundation) (H0:=demo_handles)
           "item-1" (demo_component_of demo_item)
           demo_item demo_symbol).
  - reflexivity.
  - reflexivity.
  - vm_compute. reflexivity.
  - reflexivity.
  - apply demo_pins_constructible_for.
  - decide_it.
  - intros pu Hpu. revert pu Hpu. apply Forall_forall. decide_it.
  - vm_compute. reflexivity.
  - vm_compute. reflexivity.
Defined.

Lemma init_returns_iff_witness :
  exists st, init "item-1" (demo_before_init, demo_world) = (st, inr tt).
Proof.
  apply (init_returns_iff (H:=demo_foundation) (H0:=demo_handles)
           "item-1" demo_component demo_item demo_symbol
           demo_before_init demo_world).
  - reflexivity.
  - reflexivity.
  - vm_compute. reflexivity.
  - vm_compute. reflexivity.
  - exact demo_pins_constructible.
  - split_and!.
    + decide_it.
    + intros pu Hpu. revert pu Hpu. apply Forall_forall. decide_it.
    + vm_compute. reflexivity.
    + vm_compute. reflexivity.
Defined.

Lemma addToSchematic_register_throws_witness :
  addToSchematic demo_scene (demo_instance, demo_registered)
  = ((demo_instance, demo_registered), inl demo_registered_already).
Proof.
  apply (addToSchematic_register_throws (H:=demo_foundation) (H0:=demo_handles)
           demo_scene demo_component
           demo_instance demo_registered demo_registered
           demo_registered_already).
  - reflexivity.
  - vm_compute. reflexivity.
Defined.

Lemma removeFromSchematic_unregister_throws_witness :
  removeFromSchematic demo_scene (demo_instance, demo_world)
  = ((demo_instance, demo_world),
     inl (@ForeignException demo_foundation "symbol is not registered")).
Proof.
  apply (removeFromSchematic_unregister_throws (H:=demo_foundation) (H0:=demo_handles)
           demo_scene demo_component
           demo_instance demo_world demo_world).
  - reflexivity.
  - vm_compute. reflexivity.
Defined.

Lemma serialize_after_run_witness :
  snd (serializeToXmlDomElement
         (fst (run (OpSetPosition demo_position)
                 (demo_instance, demo_registered))))
  = inr (XmlElem "symbol"
           [("uuid", "symbol-1"); ("component_instance", "cmp-1");
            ("symbol_item", "item-1")]
           [XmlElem "position"
              [("x", "1000000"); ("y", "2000000"); ("rotation", "90000000")]
              []]).
Proof.
  assert (Hvalid : checkAttributesValidity demo_instance = true)
    by (vm_compute; reflexivity).
  rewrite (serialize_after_run (H:=demo_foundation) (H0:=demo_handles)
             (OpSetPosition demo_position) demo_instance
             demo_registered demo_component demo_item Hvalid eq_refl eq_refl).
  vm_compute. reflexivity.
Defined.

Lemma instance_serializes_witness :
  exists root,
    serializeToXmlDomElement
      (set_mPosition demo_position demo_instance, demo_world)
    = ((set_mPosition demo_position demo_instance, demo_world), inr root).
Proof.
  apply (instance_serializes demo_schematic
           (set_mPosition demo_position demo_instance) demo_world
           demo_moved_instance_of).
Defined.

Lemma instance_name_witness :
  exists cmp item,
    mComponentInstance demo_instance = Some cmp /\
    mSymbVarItem demo_instance = Some item /\
    getName demo_instance = Some (cmp_getName cmp +:+ item_getSuffix item) /\
    forall op w, getName (fst (fst (run op (demo_instance, w))))
                 = getName demo_instance.
Proof.
  apply (instance_name demo_schematic demo_instance demo_instance_of).
Defined.

Lemma getAttributeValue_not_passed_witness :
  getAttributeValue demo_instance "CMP" "VALUE" false "old"
  = Some {| found := false; value := "old"; consulted := [] |}.
Proof.
  apply (getAttributeValue_not_passed demo_instance "R1A" "CMP" "VALUE" "old").
  reflexivity.
Defined.

Lemma fromXml_no_component_witness :
  SI_Symbol_fromXml demo_schematic (demo_element "symbol-1" "cmp-9" "item-1")
    demo_world
  = (demo_world, inl (@NoComponentInCircuit demo_foundation "cmp-9")).
Proof.
  apply (fromXml_no_component demo_schematic
           (demo_element "symbol-1" "cmp-9" "item-1") "symbol-1" "cmp-9"
           demo_world).
  - vm_compute. reflexivity.
  - vm_compute. reflexivity.
  - vm_compute. reflexivity.
Defined.

Lemma serialize_after_fromXml_witness :
  exists root,
    serializeToXmlDomElement (demo_instance, demo_registered)
    = ((demo_instance, demo_registered), inr root) /\
    getAttribute (T:=Uuid) root "component_instance" = inr "cmp-1".
Proof.
  destruct (serialize_after_fromXml demo_schematic
              (demo_element "symbol-1" "cmp-1" "item-1") demo_world
              {| next_handle := 3; registered := [] |} demo_instance
              demo_registered demo_lookups_by_own_uuid)
    as (uuid & gc & iu & pos & x & y & rot & _ & Hgc & _ & _ & _ & _ & _ & Hser).
  - vm_compute. reflexivity.
  - eexists. split; [exact Hser|].
    injection Hgc as <-. vm_compute. reflexivity.
Defined.
Lemma placed_members_witness :
  mSchematic demo_placed = demo_schematic /\
  mComponentInstance demo_placed = Some demo_component /\
  mPosition demo_placed = demo_position /\
  mRotation demo_placed = 0%Z /\
  is_Some (mGraphicsItem demo_placed) /\
  exists item,
    cmp_getItemByUuid demo_component "item-1" = Some item /\
    mSymbVarItem demo_placed = Some item /\
    mSymbol demo_placed = getSymbol demo_schematic (item_getSymbolUuid item).
Proof.
  apply (placed_members demo_schematic demo_component "item-1" demo_position
           0%Z demo_world {| next_handle := 4; registered := [] |} demo_placed).
  vm_compute. reflexivity.
Defined.
End DemoFacts.
